(** * csvtochart: the data transformation engine

    A shallow embedding of the deterministic part of the application:

    - the column profiler of [handleFileUpload] (src/app/page.tsx),
    - the chart-specification validator of [POST] (src/app/api/generate/route.ts),
    - the series transformer of [renderChart] with its helpers
      [prepareGroupedData], [preparePieData] and [prepareScatterData]
      (src/app/page.tsx).

    Modelling conventions.

    - A JavaScript number is an IEEE-754 binary64 value: Rocq's primitive
      [float].  Arithmetic is the primitive one, so rounding, infinities,
      signed zeros and NaN are those of the source language.
    - A string is a [string]; its characters stand for code units, and sorting
      compares them code unit by code unit as the default [sort] does.
    - A cell of a parsed CSV row is a string.
    - An ordinary object is the list of its own properties in the order in
      which [Object.keys], [Object.values] and [Object.entries] list them:
      array-index keys first, in ascending numeric order, then the other keys
      in the order of their creation.
    - The prototype of every object of the program is [Object.prototype], as
      the engine creates it.  Reading a property an object does not have
      gives the member of [Object.prototype] of that name when there is one
      (a built-in function; [Object.prototype] itself for [__proto__]), and
      [undefined] otherwise.  An assignment [o[k] = v] creates the property,
      except for [__proto__], which a setter of [Object.prototype] takes.
      The string of a built-in function is the one V8 prints.
    - [Array.prototype.sort] is stable; it is modelled by a stable insertion
      sort, which computes the one stable sorted arrangement whenever the
      comparator is consistent.
    - The validity of a date string ([new Date(s).getTime()]) is left to the
      engine by the language standard; it is a parameter [validDate]. *)

From Stdlib Require Import String Ascii List ZArith Bool Lia Arith Zpower.
From Stdlib Require Import Sorted Permutation.
From Stdlib Require Import Floats.
Import ListNotations.

Local Open Scope string_scope.
Local Open Scope list_scope.

(** ** Characters and white space *)

Definition code (c : ascii) : Z := Z.of_nat (nat_of_ascii c).

(** [StrWhiteSpaceChar]: the white space and line terminator code units
    (those below 256). *)
Definition is_ws (c : ascii) : bool :=
  let n := code c in
  ((9 <=? n) && (n <=? 13) || (n =? 32) || (n =? 160))%Z.

Fixpoint trimStart (s : string) : string :=
  match s with
  | String c s' => if is_ws c then trimStart s' else s
  | EmptyString => EmptyString
  end.

Fixpoint all_ws (s : string) : bool :=
  match s with
  | String c s' => is_ws c && all_ws s'
  | EmptyString => true
  end.

Fixpoint trimEnd (s : string) : string :=
  match s with
  | String c s' => if all_ws s then EmptyString else String c (trimEnd s')
  | EmptyString => EmptyString
  end.

(** [String.prototype.trim] *)
Definition trim (s : string) : string := trimEnd (trimStart s).

(** ** Numbers *)

Definition number := float.

Definition isNaN (f : number) : bool := PrimFloat.is_nan f.
Definition isFinite (f : number) : bool :=
  negb (PrimFloat.is_nan f || PrimFloat.is_infinity f).

(** [ToBoolean] of a number: [+0], [-0] and [NaN] are falsy. *)
Definition truthy_num (f : number) : bool :=
  negb (PrimFloat.is_zero f || PrimFloat.is_nan f).

(** [n || 0] *)
Definition or_zero (f : number) : number := if truthy_num f then f else zero.

(** *** Decimal literals

    The value of a decimal literal is the binary64 number nearest to its
    mathematical value, ties to even.  [dec2sf m e] rounds [m * 10^e] for
    [m > 0]: a non-negative exponent gives an integer, rounded directly; a
    negative one gives a quotient, computed with more than 64 significant
    bits and a sticky bit for the remainder, then rounded. *)

Definition dec2sf (m e : Z) : spec_float :=
  if (0 <=? e)%Z then binary_normalize prec emax (m * 10 ^ e) 0 false
  else
    let d := (10 ^ (- e))%Z in
    let k := (Z.log2_up d + 64)%Z in
    let q := ((m * 2 ^ k) / d)%Z in
    let r := ((m * 2 ^ k) mod d)%Z in
    binary_normalize prec emax
      (2 * q + (if (r =? 0)%Z then 0 else 1))%Z (- (k + 1))%Z false.

Definition dec2float (neg : bool) (m e : Z) : number :=
  if (m =? 0)%Z then (if neg then neg_zero else zero)
  else let f := SF2Prim (dec2sf m e) in
       if neg then (- f)%float else f.

Definition int2float (n : Z) : number :=
  SF2Prim (binary_normalize prec emax n 0 false).

Definition digit_of (c : ascii) : option Z :=
  let n := code c in
  if ((48 <=? n) && (n <=? 57))%Z then Some (n - 48)%Z else None.

(** The longest run of decimal digits at the head of [s]: the value
    accumulated on [acc], the number of digits read added to [len], and what
    follows. *)
Fixpoint read_digits (s : string) (acc len : Z) : Z * Z * string :=
  match s with
  | String c s' =>
      match digit_of c with
      | Some d => read_digits s' (10 * acc + d)%Z (len + 1)%Z
      | None => (acc, len, s)
      end
  | EmptyString => (acc, len, s)
  end.

Fixpoint strip_prefix (p s : string) : option string :=
  match p, s with
  | EmptyString, _ => Some s
  | String a p', String b s' =>
      if Ascii.eqb a b then strip_prefix p' s' else None
  | String _ _, EmptyString => None
  end.

Inductive decimal :=
| DInfinity
| DNum (m e : Z).

(** [ExponentPart], when one follows: the exponent and what follows it. *)
Definition read_exponent (s : string) : option (Z * string) :=
  match s with
  | String c s1 =>
      if (Ascii.eqb c "e" || Ascii.eqb c "E")%bool then
        let '(neg, s2) :=
          match s1 with
          | String "-" t => (true, t)
          | String "+" t => (false, t)
          | _ => (false, s1)
          end in
        let '(v, len, rest) := read_digits s2 0%Z 0%Z in
        if (len =? 0)%Z then None
        else Some ((if neg then - v else v)%Z, rest)
      else None
  | EmptyString => None
  end.

(** The longest prefix of [s] that is a [StrUnsignedDecimalLiteral]. *)
Definition read_unsigned (s : string) : option (decimal * string) :=
  match strip_prefix "Infinity" s with
  | Some rest => Some (DInfinity, rest)
  | None =>
      let '(ip, il, r1) := read_digits s 0%Z 0%Z in
      let mantissa :=
        match r1 with
        | String "." r1' =>
            let '(m, fl, r2) := read_digits r1' ip 0%Z in
            if ((il =? 0) && (fl =? 0))%Z then None else Some (m, (- fl)%Z, r2)
        | _ => if (il =? 0)%Z then None else Some (ip, 0%Z, r1)
        end in
      match mantissa with
      | None => None
      | Some (m, e, r) =>
          match read_exponent r with
          | Some (x, r') => Some (DNum m (e + x), r')
          | None => Some (DNum m e, r)
          end
      end
  end.

Definition read_sign (s : string) : bool * string :=
  match s with
  | String "-" t => (true, t)
  | String "+" t => (false, t)
  | _ => (false, s)
  end.

Definition decimal_value (neg : bool) (d : decimal) : number :=
  match d with
  | DInfinity => if neg then neg_infinity else infinity
  | DNum m e => dec2float neg m e
  end.

(** [parseFloat(s)] for a string [s] *)
Definition parseFloat_string (s : string) : number :=
  let '(neg, t) := read_sign (trimStart s) in
  match read_unsigned t with
  | Some (d, _) => decimal_value neg d
  | None => nan
  end.

(** Digits in radix 16, 8 or 2 ([Number("0x1f")], [Number("0o17")],
    [Number("0b101")]). *)
Definition radix_digit (radix : Z) (c : ascii) : option Z :=
  let n := code c in
  let d :=
    if ((48 <=? n) && (n <=? 57))%Z then (n - 48)%Z
    else if ((97 <=? n) && (n <=? 102))%Z then (n - 87)%Z
    else if ((65 <=? n) && (n <=? 70))%Z then (n - 55)%Z
    else 99%Z in
  if (d <? radix)%Z then Some d else None.

Fixpoint read_radix (radix : Z) (s : string) (acc : Z) : option Z :=
  match s with
  | String c s' =>
      match radix_digit radix c with
      | Some d => read_radix radix s' (radix * acc + d)%Z
      | None => None
      end
  | EmptyString => Some acc
  end.

Definition radix_prefix (s : string) : option (Z * string) :=
  match s with
  | String "0" (String c rest) =>
      if (Ascii.eqb c "x" || Ascii.eqb c "X")%bool then Some (16%Z, rest)
      else if (Ascii.eqb c "o" || Ascii.eqb c "O")%bool then Some (8%Z, rest)
      else if (Ascii.eqb c "b" || Ascii.eqb c "B")%bool then Some (2%Z, rest)
      else None
  | _ => None
  end.

(** [Number(s)] for a string [s] ([StringToNumber]) *)
Definition Number_string (s : string) : number :=
  let t := trim s in
  match t with
  | EmptyString => zero
  | _ =>
      match radix_prefix t with
      | Some (radix, digits) =>
          match digits with
          | EmptyString => nan
          | _ => match read_radix radix digits 0%Z with
                 | Some n => int2float n
                 | None => nan
                 end
          end
      | None =>
          let '(neg, u) := read_sign t in
          match read_unsigned u with
          | Some (d, EmptyString) => decimal_value neg d
          | _ => nan
          end
      end
  end.

(** ** The members of [Object.prototype] *)

Definition prototype_members : list string :=
  ["constructor"; "__defineGetter__"; "__defineSetter__"; "hasOwnProperty";
   "__lookupGetter__"; "__lookupSetter__"; "isPrototypeOf";
   "propertyIsEnumerable"; "toString"; "valueOf"; "__proto__";
   "toLocaleString"].

Definition is_member (k : string) : bool :=
  existsb (String.eqb k) prototype_members.

(** [String(Object.prototype[name])]: the source text of a built-in
    function, whose name is [Object] for [constructor] and the name of the
    member otherwise; and the string of [Object.prototype] for
    [__proto__]. *)
Definition builtin_text (name : string) : string :=
  if String.eqb name "__proto__" then "[object Object]"
  else
    "function "
    ++ (if String.eqb name "constructor" then "Object" else name)
    ++ "() { [native code] }".

(** ** Values

    The values the transformer stores in the records it builds.
    [VBuiltin name] is the member [name] of [Object.prototype]. *)

Inductive jsvalue :=
| VUndef
| VNum (n : number)
| VStr (s : string)
| VBuiltin (name : string).

(** A cell as read from a row: [row[c]] is the string of the column [c] when
    the row has one; when it has none it is the member [c] of
    [Object.prototype], which every row inherits, or [undefined]. *)
Inductive cell :=
| Str (s : string)
| Absent
| Inherited (name : string).

Definition cell_value (c : cell) : jsvalue :=
  match c with
  | Str s => VStr s
  | Absent => VUndef
  | Inherited name => VBuiltin name
  end.

(** [String(c)]: the property key a cell is used as, and the argument
    [parseFloat] sees. *)
Definition key_of (c : cell) : string :=
  match c with
  | Str s => s
  | Absent => "undefined"
  | Inherited name => builtin_text name
  end.

(** Whether two cells are the same element of a [Set]. *)
Definition cell_eqb (a b : cell) : bool :=
  match a, b with
  | Str s, Str t => String.eqb s t
  | Absent, Absent => true
  | Inherited m, Inherited n => String.eqb m n
  | _, _ => false
  end.

Definition parseFloat (c : cell) : number := parseFloat_string (key_of c).

(** [parseFloat(c) || 0] *)
Definition coerce (c : cell) : number := or_zero (parseFloat c).

Definition truthy (v : jsvalue) : bool :=
  match v with
  | VUndef => false
  | VNum n => truthy_num n
  | VStr s => negb (String.eqb s "")
  | VBuiltin _ => true
  end.

Definition ToNumber (v : jsvalue) : number :=
  match v with
  | VUndef => nan
  | VNum n => n
  | VStr s => Number_string s
  | VBuiltin name => Number_string (builtin_text name)
  end.

(** The global [isNaN(v)] *)
Definition isNaN_value (v : jsvalue) : bool := isNaN (ToNumber v).

(** ** Objects *)

(** An array index: the canonical decimal form of an integer below
    [2^32 - 1]. *)
Definition array_index (k : string) : option Z :=
  match k with
  | EmptyString => None
  | String c rest =>
      match read_digits k 0%Z 0%Z with
      | (n, _, EmptyString) =>
          if (Ascii.eqb c "0" && negb (String.eqb rest ""))%bool then None
          else if (n <=? 4294967294)%Z then Some n else None
      | _ => None
      end
  end.

Section Objects.

Context {A : Type}.

Definition object := list (string * A).

Fixpoint obj_get (k : string) (o : object) : option A :=
  match o with
  | [] => None
  | (k', v) :: o' => if String.eqb k' k then Some v else obj_get k o'
  end.

Definition obj_has (k : string) (o : object) : bool :=
  match obj_get k o with
  | Some _ => true
  | None => false
  end.

(** Assignment to a property the object has: its place is kept. *)
Fixpoint obj_replace (k : string) (v : A) (o : object) : object :=
  match o with
  | [] => []
  | (k', v') :: o' =>
      if String.eqb k' k then (k, v) :: o' else (k', v') :: obj_replace k v o'
  end.

(** Creation of an array-index property: after the smaller indices. *)
Fixpoint obj_insert_index (n : Z) (k : string) (v : A) (o : object) : object :=
  match o with
  | [] => [(k, v)]
  | (k', v') :: o' =>
      match array_index k' with
      | Some n' =>
          if (n' <? n)%Z then (k', v') :: obj_insert_index n k v o'
          else (k, v) :: o
      | None => (k, v) :: o
      end
  end.

(** The property [k] of [o] is given the value [v]: it is created when [o]
    does not have it.  This is what an object literal [{ [k]: v }] and the
    spread of an object do for every key. *)
Definition obj_set (k : string) (v : A) (o : object) : object :=
  if obj_has k o then obj_replace k v o
  else match array_index k with
       | Some n => obj_insert_index n k v o
       | None => o ++ [(k, v)]
       end.

(** [o[k] = v].  An assignment to [__proto__] that [o] does not have of its
    own goes to the setter of [Object.prototype]: it makes an object [v] the
    prototype of [o] and does nothing for any other [v]; in neither case
    does [o] get a property. *)
Definition obj_assign (k : string) (v : A) (o : object) : object :=
  if String.eqb k "__proto__" && negb (obj_has k o) then o
  else obj_set k v o.

(** [delete o[k]] *)
Fixpoint obj_delete (k : string) (o : object) : object :=
  match o with
  | [] => []
  | (k', v) :: o' =>
      if String.eqb k' k then obj_delete k o' else (k', v) :: obj_delete k o'
  end.

(** [o[k]] is an object that is updated in place by [f]. *)
Definition obj_update (k : string) (f : A -> A) (o : object) : object :=
  match obj_get k o with
  | Some a => obj_replace k (f a) o
  | None => o
  end.

Definition obj_keys (o : object) : list string := map fst o.
Definition obj_values (o : object) : list A := map snd o.

(** [Object.values(o).forEach(f)] for an [f] that updates its argument in
    place *)
Definition obj_foreach (f : A -> A) (o : object) : object :=
  map (fun kv => (fst kv, f (snd kv))) o.

End Objects.

Arguments object : clear implicits.

(** A parsed CSV row *)
Definition row := object string.

(** [r[c]] *)
Definition row_get (c : string) (r : row) : cell :=
  match obj_get c r with
  | Some s => Str s
  | None => if is_member c then Inherited c else Absent
  end.

(** A record of a series *)
Definition record := object jsvalue.

(** [o[k]] for a property [o] does not have *)
Definition inherited_value (k : string) : jsvalue :=
  if is_member k then VBuiltin k else VUndef.

(** [o[k]] *)
Definition field (o : record) (k : string) : jsvalue :=
  match obj_get k o with
  | Some v => v
  | None => inherited_value k
  end.

(** [{...r}] *)
Definition spread (r : row) : record :=
  fold_left (fun o kv => obj_set (fst kv) (VStr (snd kv)) o) r [].

(** ** Sorting and sets *)

Section Sort.

Context {A : Type}.

(** [after a b]: the comparator is positive on [(a, b)], so [a] goes after
    [b]. *)
Variable after : A -> A -> bool.

Fixpoint insert_sorted (x : A) (l : list A) : list A :=
  match l with
  | [] => [x]
  | y :: l' => if after y x then x :: l else y :: insert_sorted x l'
  end.

Definition sort (l : list A) : list A :=
  fold_left (fun acc x => insert_sorted x acc) l [].

End Sort.

(** The default comparator of [sort()]: [undefined] last, the rest by their
    strings, code unit by code unit. *)
Definition default_after (a b : cell) : bool :=
  match a, b with
  | Absent, Absent => false
  | Absent, _ => true
  | _, Absent => false
  | _, _ => String.ltb (key_of b) (key_of a)
  end.

(** [[...new Set(l)]]: the distinct elements in the order of their first
    occurrence. *)
Section Unique.

Context {A : Type}.
Variable eqb : A -> A -> bool.

Definition set_add (seen : list A) (c : A) : list A :=
  if existsb (eqb c) seen then seen else seen ++ [c].

Definition unique (l : list A) : list A := fold_left set_add l [].

End Unique.

(** ** The series transformer (src/app/page.tsx) *)

Module Transformer.

Section Grouped.

(** [String(n)] of a number [n].  The transformer needs it only where [+=]
    meets a string, and no result below depends on what it returns. *)
Variable numberToString : number -> string.

(** [a + b], for a number [b] *)
Definition js_add (a : jsvalue) (b : number) : jsvalue :=
  match a with
  | VUndef => VNum nan
  | VNum n => VNum (n + b)%float
  | VStr s => VStr (s ++ numberToString b)
  | VBuiltin name => VStr (builtin_text name ++ numberToString b)
  end.

(** *** Plain: one series *)

Definition preparePlainData (data : list row) (y : string) : list record :=
  map (fun r => obj_set y (VNum (coerce (row_get y r))) (spread r)) data.

(** *** Scatter *)

Definition prepareScatterData (data : list row) (x y : string) : list record :=
  filter
    (fun o => negb (isNaN_value (field o x)) && negb (isNaN_value (field o y)))
    (map (fun r =>
            obj_set y (VNum (coerce (row_get y r)))
              (obj_set x (VNum (coerce (row_get x r))) (spread r)))
         data).

(** *** Grouped: one series per value of the grouping column *)

(** [`${group}_count`] *)
Definition count_key (g : string) : string := g ++ "_count".

(** The [switch (transform)] of the accumulation loop, on the record
    [groupedData[xValue]]. *)
Definition accumulate (transform groupKey : string) (yValue : number)
    (item : record) : record :=
  if String.eqb transform "sum" then
    obj_assign groupKey (js_add (field item groupKey) yValue) item
  else if String.eqb transform "average" then
    let item1 :=
      if negb (truthy (field item (count_key groupKey))) then
        obj_assign groupKey (VNum 0%float)
          (obj_assign (count_key groupKey) (VNum 0%float) item)
      else item in
    let item2 :=
      obj_assign groupKey (js_add (field item1 groupKey) yValue) item1 in
    obj_assign (count_key groupKey)
      (js_add (field item2 (count_key groupKey)) 1%float) item2
  else if String.eqb transform "count" then
    obj_assign groupKey (js_add (field item groupKey) 1%float) item
  else
    obj_assign groupKey (js_add (field item groupKey) yValue) item.

(** [v || 1] *)
Definition or_one (v : jsvalue) : jsvalue := if truthy v then v else VNum 1%float.

(** The post-processing of one record for [average]. *)
Definition average_group (item : record) (group : cell) : record :=
  let count := or_one (field item (count_key (key_of group))) in
  obj_delete (count_key (key_of group))
    (obj_assign (key_of group)
       (VNum (ToNumber (field item (key_of group)) / ToNumber count)%float)
       item).

Definition average_item (uniqueGroups : list cell) (item : record) : record :=
  fold_left average_group uniqueGroups item.

Definition uniqueX (data : list row) (x : string) : list cell :=
  sort default_after (unique cell_eqb (map (row_get x) data)).

Definition uniqueGroups (data : list row) (groupBy : string) : list cell :=
  unique cell_eqb (map (row_get groupBy) data).

(** One record per x value, every group initialised with 0. *)
Definition seed_item (groups : list cell) (x : string) (xVal : cell) : record :=
  fold_left (fun item group => obj_assign (key_of group) (VNum 0%float) item)
    groups [(x, cell_value xVal)].

(** The loop that initialises [groupedData].  The record of an x value
    [__proto__] becomes the prototype of [groupedData] and no property of it:
    the loops reach it as [groupedData["__proto__"]] and update it, but
    nothing else reads it and [Object.values] does not list it, so that it is
    not kept here. *)
Definition seed (xs groups : list cell) (x : string) : object record :=
  fold_left
    (fun groupedData xVal =>
       fold_left
         (fun gd group =>
            obj_update (key_of xVal)
              (obj_assign (key_of group) (VNum 0%float)) gd)
         groups
         (obj_assign (key_of xVal) [(x, cell_value xVal)] groupedData))
    xs [].

(** One turn of [data.forEach].  The records [groupedData] has are updated
    in place; for the x value [__proto__] the test holds as well and the
    record updated is the prototype. *)
Definition accumulate_row (x y groupBy transform : string)
    (groupedData : object record) (r : row) : object record :=
  let xValue := row_get x r in
  let groupKey := row_get groupBy r in
  let yValue := coerce (row_get y r) in
  if obj_has (key_of xValue) groupedData then
    obj_update (key_of xValue)
      (accumulate transform (key_of groupKey) yValue) groupedData
  else groupedData.

(** The object [groupedData] when [prepareGroupedData] returns. *)
Definition groupedData (data : list row) (x y groupBy transform : string)
  : object record :=
  let xs := uniqueX data x in
  let groups := uniqueGroups data groupBy in
  let filled :=
    fold_left (accumulate_row x y groupBy transform) data (seed xs groups x) in
  if String.eqb transform "average" then
    obj_foreach (average_item groups) filled
  else filled.

Definition prepareGroupedData (data : list row) (x y groupBy transform : string)
  : list record :=
  obj_values (groupedData data x y groupBy transform).

End Grouped.

(** *** Pie *)

Record PieAcc := { acc_value : number; acc_count : number }.

Record PieEntry := { name : string; value : number }.

(** The state of the loop: the object [aggregated], and the names of the
    properties the loop has given to [Object.prototype].  For a category
    [__proto__] the value of [aggregated[category]] is [Object.prototype]
    itself, and [aggregated[category].value += value] gives it a property
    [value] ([count] as well for [average]); its value is [NaN], as
    [undefined + value] is, and every object inherits it from there on. *)
Record PieState := {
  accumulators : object PieAcc;
  polluted : list string
}.

(** [String(row[x])]; a property [x] that [Object.prototype] has been given
    is read where the row has no cell. *)
Definition category_key (polluted : list string) (x : string) (r : row)
  : string :=
  if negb (obj_has x r) && existsb (String.eqb x) polluted then "NaN"
  else key_of (row_get x r).

(** One turn of [data.forEach].  [row[y]] gives 0 where it is inherited, as it
    does where it is [undefined].  A category [aggregated] has no property for
    gets one unless [aggregated[category]] is a member of [Object.prototype]:
    the sums of such a category go to the built-in function, which nothing
    reads, or to [Object.prototype]. *)
Definition aggregate_row (x y transform : string)
    (st : PieState) (r : row) : PieState :=
  let category := category_key (polluted st) x r in
  let v := coerce (row_get y r) in
  let aggregated := accumulators st in
  let add :=
    fun a =>
      if String.eqb transform "sum" then
        {| acc_value := (acc_value a + v)%float; acc_count := acc_count a |}
      else if String.eqb transform "average" then
        {| acc_value := (acc_value a + v)%float;
           acc_count := (acc_count a + 1)%float |}
      else if String.eqb transform "count" then
        {| acc_value := (acc_value a + 1)%float; acc_count := acc_count a |}
      else
        {| acc_value := (acc_value a + v)%float; acc_count := acc_count a |} in
  if obj_has category aggregated then
    {| accumulators := obj_update category add aggregated;
       polluted := polluted st |}
  else if is_member category then
    if String.eqb category "__proto__" then
      {| accumulators := aggregated;
         polluted :=
           if String.eqb transform "average"
           then "count" :: "value" :: polluted st
           else "value" :: polluted st |}
    else st
  else
    {| accumulators :=
         obj_update category add
           (obj_assign category
              {| acc_value := 0%float; acc_count := 0%float |} aggregated);
       polluted := polluted st |}.

(** The object [aggregated] when the loop ends. *)
Definition aggregated (data : list row) (x y transform : string)
  : object PieAcc :=
  accumulators
    (fold_left (aggregate_row x y transform) data
       {| accumulators := []; polluted := [] |}).

(** The comparator [(a, b) => b.value - a.value] is positive. *)
Definition pie_after (a b : PieEntry) : bool :=
  (0 <? value b - value a)%float.

Definition preparePieData (data : list row) (x y transform : string)
  : list PieEntry :=
  sort pie_after
    (map (fun kv =>
            {| name := fst kv;
               value := if String.eqb transform "average"
                        then (acc_value (snd kv) / acc_count (snd kv))%float
                        else acc_value (snd kv) |})
         (aggregated data x y transform)).

(** *** The choice of the strategy ([renderChart]) *)

Record ChartConfig := {
  chartType : string;
  x : string;
  y : string;
  groupBy : option string;
  dataTransform : string;
  data : list row
}.

Inductive ChartData :=
| PieData (l : list PieEntry)
| SeriesData (l : list record).

(** [chartData] as [renderChart] prepares it; no chart is prepared for an
    empty [data]. *)
Definition chartData (numberToString : number -> string) (c : ChartConfig)
  : option ChartData :=
  match data c with
  | [] => None
  | _ =>
      Some
        (if String.eqb (chartType c) "pie" then
           PieData (preparePieData (data c) (x c) (y c) (dataTransform c))
         else
           match groupBy c with
           | Some g =>
               if negb (String.eqb g "") then
                 SeriesData (prepareGroupedData numberToString (data c) (x c)
                               (y c) g (dataTransform c))
               else if String.eqb (chartType c) "scatter" then
                 SeriesData (prepareScatterData (data c) (x c) (y c))
               else SeriesData (preparePlainData (data c) (y c))
           | None =>
               if String.eqb (chartType c) "scatter" then
                 SeriesData (prepareScatterData (data c) (x c) (y c))
               else SeriesData (preparePlainData (data c) (y c))
           end)
  end.

End Transformer.

(** ** The column profiler ([handleFileUpload], src/app/page.tsx) *)

Module Profiler.

Record ColumnInfo := {
  name : string;
  type : string;
  min : option number;
  max : option number;
  uniqueCount : nat
}.

(** Whether a number is [-0] or [+0]. *)
Definition is_neg_zero (n : number) : bool :=
  match classify n with
  | NZero => true
  | _ => false
  end.

Definition is_pos_zero (n : number) : bool :=
  match classify n with
  | PZero => true
  | _ => false
  end.

(** [Math.min(...l)]: [NaN] when an argument is [NaN]; otherwise the least
    argument, [-0] counting as less than [+0], and [+Infinity] for no
    argument. *)
Definition min_step (lowest n : number) : number :=
  if is_neg_zero n && is_pos_zero lowest then n
  else if (n <? lowest)%float then n else lowest.

Definition Math_min (l : list number) : number :=
  if existsb isNaN l then nan else fold_left min_step l infinity.

(** [Math.max(...l)] *)
Definition max_step (highest n : number) : number :=
  if is_pos_zero n && is_neg_zero highest then n
  else if (highest <? n)%float then n else highest.

Definition Math_max (l : list number) : number :=
  if existsb isNaN l then nan else fold_left max_step l neg_infinity.

Section Column.

(** [!isNaN(new Date(value).getTime())] *)
Variable validDate : string -> bool.

(** A value that is no string is no number, and no date: the string of
    [undefined] and the source text of a built-in function have no digit, and
    such a string is a date for no engine. *)
Definition getValueType (value : cell) : string :=
  match value with
  | Str s =>
      if negb (isNaN (parseFloat_string s))
         && isFinite (Number_string s)
         && negb (String.eqb (trim s) "")
      then "numeric"
      else if validDate s && negb (String.eqb (trim s) "")
      then "date"
      else "text"
  | _ => "text"
  end.

(** [acc[t] = (acc[t] || 0) + 1]: the counts are integers, and [t] is one of
    the three types, none of which is the name of a member of
    [Object.prototype]. *)
Definition tally (acc : object nat) (t : string) : object nat :=
  obj_set t
    (match obj_get t acc with
     | Some n => n + 1
     | None => 0 + 1
     end) acc.

Definition typeCounts (types : list string) : object nat :=
  fold_left tally types [].

(** The comparator [([,a], [,b]) => b - a] is positive. *)
Definition count_after (a b : string * nat) : bool := Nat.ltb (snd a) (snd b).

Definition sortedTypes (types : list string) : list (string * nat) :=
  sort count_after (typeCounts types).

(** [count / total > 0.5].  Both are lengths of arrays, integers below
    [2^32]; the quotient of two such integers, rounded to the nearest
    binary64 number, exceeds one half exactly when twice the count exceeds the
    total. *)
Definition over_half (count total : nat) : bool := Nat.ltb total (2 * count).

(** The values of a column: what [row[name]] gives for the rows, without the
    values [undefined] and [""]. *)
Definition columnValues (data : list row) (name : string) : list cell :=
  flat_map
    (fun r =>
       match row_get name r with
       | Str s => if String.eqb s "" then [] else [Str s]
       | Absent => []
       | Inherited m => [Inherited m]
       end)
    data.

Definition inferType (values : list cell) : string :=
  match values with
  | [] => "text"
  | _ =>
      let types := map getValueType values in
      let total := length types in
      match sortedTypes types with
      | (mostCommonType, count) :: _ =>
          if over_half count total then mostCommonType else "text"
      | [] => "text"
      end
  end.

(** The numbers [min] and [max] are taken over. *)
Definition nums (values : list cell) : list number :=
  map parseFloat
    (filter (fun v => String.eqb (getValueType v) "numeric") values).

Definition columnInfo (data : list row) (name : string) : ColumnInfo :=
  let values := columnValues data name in
  let type := inferType values in
  let range :=
    if String.eqb type "numeric" then
      match nums values with
      | [] => (None, None)
      | ns => (Some (Math_min ns), Some (Math_max ns))
      end
    else (None, None) in
  {| name := name;
     type := type;
     min := fst range;
     max := snd range;
     uniqueCount := length (unique cell_eqb values) |}.


End Column.

End Profiler.

(** ** The chart-specification validator ([POST], src/app/api/generate/route.ts) *)

Module Validator.

(** What [JSON.parse] returns. *)
#[warnings="-register-all"]
Inductive json :=
| JNull
| JBool (b : bool)
| JNum (n : number)
| JStr (s : string)
| JArr (l : list json)
| JObj (l : list (string * json)).

(** [field in v]: a [TypeError] ([None]) when [v] is not an object; none of
    the names it is asked for is a property of an array. *)
Definition js_in (field : string) (v : json) : option bool :=
  match v with
  | JObj props => Some (obj_has field props)
  | JArr _ => Some false
  | _ => None
  end.

(** [v.field], [undefined] ([None]) for a property [v] does not have. *)
Definition prop (field : string) (v : json) : option json :=
  match v with
  | JObj props => obj_get field props
  | _ => None
  end.

Definition truthy_json (v : option json) : bool :=
  match v with
  | None => false
  | Some JNull => false
  | Some (JBool b) => b
  | Some (JNum n) => truthy_num n
  | Some (JStr s) => negb (String.eqb s "")
  | Some (JArr _) => true
  | Some (JObj _) => true
  end.

(** [l.includes(v)] for an array [l] of strings *)
Definition includes (l : list string) (v : option json) : bool :=
  match v with
  | Some (JStr s) => existsb (String.eqb s) l
  | _ => false
  end.

Definition requiredFields : list string := ["chartType"; "x"; "y"; "summary"].
Definition validChartTypes : list string :=
  ["bar"; "line"; "pie"; "scatter"; "area"].
Definition validTransforms : list string := ["none"; "sum"; "average"; "count"].

(** The error responses, all of status 500. *)
Inductive Rejection :=
| MissingField (field : string)
| InvalidChartType (chartType : option json)
| ColumnsNotFound
| InternalError.

(** The response body on success. *)
Record ChartSpec := {
  chartType : option json;
  x : option json;
  y : option json;
  groupBy : json;
  dataTransform : option json;
  summary : option json;
  data : list row
}.

(** The loop over [requiredFields]: the first rejection, if any. *)
Fixpoint check_required (fields : list string) (chartConfig : json)
  : option Rejection :=
  match fields with
  | [] => None
  | field :: rest =>
      match js_in field chartConfig with
      | None => Some InternalError
      | Some false => Some (MissingField field)
      | Some true => check_required rest chartConfig
      end
  end.

Definition or_null (v : option json) : json :=
  match v with
  | Some j => if truthy_json v then j else JNull
  | None => JNull
  end.

Definition validate (columns : list string) (rows : list row)
    (chartConfig : json) : Rejection + ChartSpec :=
  match check_required requiredFields chartConfig with
  | Some r => inl r
  | None =>
      if negb (includes validChartTypes (prop "chartType" chartConfig)) then
        inl (InvalidChartType (prop "chartType" chartConfig))
      else if negb (includes columns (prop "x" chartConfig))
              || negb (includes columns (prop "y" chartConfig)) then
        inl ColumnsNotFound
      else
        let groupBy1 :=
          if truthy_json (prop "groupBy" chartConfig)
             && negb (includes columns (prop "groupBy" chartConfig))
          then Some JNull
          else prop "groupBy" chartConfig in
        let dataTransform1 :=
          if negb (truthy_json (prop "dataTransform" chartConfig))
             || negb (includes validTransforms (prop "dataTransform" chartConfig))
          then Some (JStr "none")
          else prop "dataTransform" chartConfig in
        inr {| chartType := prop "chartType" chartConfig;
               x := prop "x" chartConfig;
               y := prop "y" chartConfig;
               groupBy := or_null groupBy1;
               dataTransform := dataTransform1;
               summary := prop "summary" chartConfig;
               data := rows |}
  end.

End Validator.

(** ** The series of a chart with groups ([renderChart], src/app/page.tsx) *)

Module Series.

(** [Object.keys(chartData[0] || {}).filter(key => key !== x)]: the keys a
    bar, line or area chart draws one series for. *)
Definition seriesKeys (chartData : list record) (x : string) : list string :=
  filter (fun key => negb (String.eqb key x)) (obj_keys (hd [] chartData)).

End Series.

(** ** The request ([handleSubmit], src/app/page.tsx) *)

Module Payload.




End Payload.

(** ** The data context of the prompt ([POST], src/app/api/generate/route.ts) *)

Module DataContext.

Definition totalRows (data : list row) : nat := length data.

(** [uniqueValues]: for each column its first 10 distinct cells. *)
Definition uniqueValues (columns : list string) (data : list row)
  : object (list cell) :=
  fold_left
    (fun acc col =>
       let values := map (row_get col) data in
       obj_assign col (firstn 10 (unique cell_eqb values)) acc)
    columns [].

End DataContext.

(** * Properties *)

(** ** Objects *)

Ltac string_cases :=
  repeat match goal with
    | |- context [String.eqb ?a ?b] =>
        destruct (String.eqb_spec a b); subst; simpl; try congruence
    | H : context [String.eqb ?a ?b] |- _ =>
        destruct (String.eqb_spec a b); subst; simpl in H; try congruence
    end.

Section ObjectFacts.

Context {A : Type}.
Implicit Types (o : object A) (k : string) (v : A).

Lemma obj_has_true k o : obj_has k o = true <-> exists v, obj_get k o = Some v.
Proof.
  unfold obj_has. destruct (obj_get k o) as [v|].
  - split; eauto.
  - split; [discriminate | intros [v H]; discriminate].
Qed.

Lemma obj_has_false k o : obj_has k o = false <-> obj_get k o = None.
Proof.
  unfold obj_has. destruct (obj_get k o); split; congruence.
Qed.

Lemma obj_has_keys k o : obj_has k o = true <-> In k (obj_keys o).
Proof.
  unfold obj_has. induction o as [|[k' v'] o IH]; simpl.
  - split; [discriminate | tauto].
  - destruct (String.eqb_spec k' k).
    + split; auto.
    + rewrite IH. split; [auto | intros [E|H]; [congruence | exact H]].
Qed.

Lemma obj_get_In k v o : obj_get k o = Some v -> In (k, v) o.
Proof.
  induction o as [|[k' v'] o IH]; simpl; [discriminate|].
  destruct (String.eqb_spec k' k).
  - intros [= ->]. subst. now left.
  - intros H. right. auto.
Qed.

Lemma In_obj_get k v o :
  NoDup (obj_keys o) -> In (k, v) o -> obj_get k o = Some v.
Proof.
  induction o as [|[k' v'] o IH]; simpl; [tauto|].
  intros Hnd [E|H]; inversion Hnd as [|? ? Hnotin Hnd']; subst.
  - inversion E; subst. now rewrite String.eqb_refl.
  - destruct (String.eqb_spec k' k).
    + subst. exfalso. apply Hnotin. change k with (fst (k, v)).
      now apply in_map.
    + auto.
Qed.

Lemma obj_get_replace k k' v o :
  obj_get k' (obj_replace k v o) =
  if String.eqb k k' then (if obj_has k o then Some v else None)
  else obj_get k' o.
Proof.
  unfold obj_has. induction o as [|[k0 v0] o IH]; simpl.
  - now destruct (String.eqb k k').
  - destruct (String.eqb_spec k0 k); subst; simpl.
    + destruct (String.eqb_spec k k'); subst; [reflexivity|].
      reflexivity.
    + destruct (String.eqb_spec k0 k'); subst.
      * destruct (String.eqb_spec k k'); [congruence | reflexivity].
      * exact IH.
Qed.

Lemma obj_get_insert_index n k k' v o :
  obj_has k o = false ->
  obj_get k' (obj_insert_index n k v o) =
  if String.eqb k k' then Some v else obj_get k' o.
Proof.
  unfold obj_has. induction o as [|[k0 v0] o IH]; simpl; intros Hhas.
  - reflexivity.
  - destruct (String.eqb_spec k0 k) as [->|Hne]; [discriminate|].
    destruct (array_index k0) as [n0|]; [destruct (n0 <? n)%Z|]; simpl.
    + rewrite (IH Hhas).
      destruct (String.eqb_spec k0 k'); subst; [|reflexivity].
      destruct (String.eqb_spec k k'); [congruence | reflexivity].
    + destruct (String.eqb_spec k k'); subst; reflexivity.
    + destruct (String.eqb_spec k k'); subst; reflexivity.
Qed.

Lemma obj_get_app k o o' :
  obj_get k (o ++ o') =
  match obj_get k o with
  | Some v => Some v
  | None => obj_get k o'
  end.
Proof.
  induction o as [|[k0 v0] o IH]; simpl; [reflexivity|].
  now destruct (String.eqb k0 k).
Qed.

(** Reading after writing. *)
Lemma obj_get_set k k' v o :
  obj_get k' (obj_set k v o) = if String.eqb k k' then Some v else obj_get k' o.
Proof.
  unfold obj_set. destruct (obj_has k o) eqn:Hhas.
  - rewrite obj_get_replace, Hhas. reflexivity.
  - destruct (array_index k) as [n|].
    + now rewrite obj_get_insert_index.
    + rewrite obj_get_app. simpl.
      destruct (String.eqb_spec k k'); subst.
      * apply obj_has_false in Hhas. now rewrite Hhas.
      * now destruct (obj_get k' o).
Qed.

Lemma obj_get_delete k k' o :
  obj_get k' (obj_delete k o) = if String.eqb k k' then None else obj_get k' o.
Proof.
  induction o as [|[k0 v0] o IH]; simpl.
  - now destruct (String.eqb k k').
  - destruct (String.eqb_spec k0 k); subst; simpl.
    + rewrite IH. destruct (String.eqb_spec k k'); reflexivity.
    + destruct (String.eqb_spec k0 k'); subst.
      * destruct (String.eqb_spec k k'); [congruence | reflexivity].
      * exact IH.
Qed.

Lemma obj_get_update k k' (f : A -> A) o :
  obj_get k' (obj_update k f o) =
  if String.eqb k k' then option_map f (obj_get k o) else obj_get k' o.
Proof.
  unfold obj_update. destruct (obj_get k o) as [a|] eqn:Hget.
  - rewrite obj_get_replace. unfold obj_has. rewrite Hget. reflexivity.
  - destruct (String.eqb_spec k k'); subst; [now rewrite Hget | reflexivity].
Qed.

Lemma obj_get_foreach k (f : A -> A) o :
  obj_get k (obj_foreach f o) = option_map f (obj_get k o).
Proof.
  induction o as [|[k0 v0] o IH]; simpl; [reflexivity|].
  now destruct (String.eqb k0 k).
Qed.

Lemma obj_has_set k k' v o :
  obj_has k' (obj_set k v o) = (String.eqb k k' || obj_has k' o)%bool.
Proof.
  unfold obj_has. rewrite obj_get_set.
  now destruct (String.eqb k k').
Qed.

Lemma obj_has_update k k' (f : A -> A) o :
  obj_has k' (obj_update k f o) = obj_has k' o.
Proof.
  unfold obj_has. rewrite obj_get_update.
  destruct (String.eqb_spec k k'); subst; [|reflexivity].
  now destruct (obj_get k' o).
Qed.

(** The keys an assignment leaves. *)
Lemma obj_keys_replace k v o : obj_keys (obj_replace k v o) = obj_keys o.
Proof.
  induction o as [|[k0 v0] o IH]; simpl; [reflexivity|].
  destruct (String.eqb_spec k0 k); subst; simpl; [reflexivity|].
  now rewrite IH.
Qed.

Lemma obj_keys_update k (f : A -> A) o : obj_keys (obj_update k f o) = obj_keys o.
Proof.
  unfold obj_update. destruct (obj_get k o); [apply obj_keys_replace | reflexivity].
Qed.

Lemma obj_keys_foreach (f : A -> A) o : obj_keys (obj_foreach f o) = obj_keys o.
Proof.
  unfold obj_keys, obj_foreach. rewrite map_map. reflexivity.
Qed.

Lemma obj_values_foreach (f : A -> A) o :
  obj_values (obj_foreach f o) = map f (obj_values o).
Proof.
  unfold obj_values, obj_foreach. now rewrite !map_map.
Qed.

End ObjectFacts.

(** ** Binary64 arithmetic

    What the proofs below need of the primitive operations, derived from
    their specification ([FloatAxioms]). *)

Module FloatFacts.

Local Open Scope Z_scope.

Definition has_sign (s : bool) (x : spec_float) : Prop :=
  match x with
  | S754_finite s' _ _ => s' = s
  | S754_infinity s' => s' = s
  | _ => False
  end.

Lemma fexp_ge_emin k : emin <= fexp prec emax k.
Proof. unfold fexp. lia. Qed.

Lemma digits2_pos_lower m : 2 ^ (Zpos (digits2_pos m) - 1) <= Zpos m.
Proof.
  induction m as [m IH|m IH|]; simpl digits2_pos.
  - rewrite Pos2Z.inj_succ.
    replace (Z.succ (Zpos (digits2_pos m)) - 1) with (Z.succ (Zpos (digits2_pos m) - 1)) by lia.
    rewrite Z.pow_succ_r by lia. lia.
  - rewrite Pos2Z.inj_succ.
    replace (Z.succ (Zpos (digits2_pos m)) - 1) with (Z.succ (Zpos (digits2_pos m) - 1)) by lia.
    rewrite Z.pow_succ_r by lia. lia.
  - simpl. lia.
Qed.

Lemma digits2_pos_upper m : Zpos m < 2 ^ Zpos (digits2_pos m).
Proof.
  induction m as [m IH|m IH|]; simpl digits2_pos.
  - rewrite Pos2Z.inj_succ, Z.pow_succ_r by lia. lia.
  - rewrite Pos2Z.inj_succ, Z.pow_succ_r by lia. lia.
  - simpl. lia.
Qed.

Lemma shr_1_lower mrs k : 2 * k <= shr_m mrs -> k <= shr_m (shr_1 mrs).
Proof.
  destruct mrs as [m r s]. unfold shr_1.
  destruct m as [|p|p]; [cbn [shr_m]; lia| |].
  - destruct p as [p|p|]; cbn [shr_m]; intros H.
    + rewrite (Pos2Z.inj_xI p) in H. lia.
    + rewrite (Pos2Z.inj_xO p) in H. lia.
    + lia.
  - destruct p as [p|p|]; cbn [shr_m]; intros H.
    + rewrite (Pos2Z.neg_xI p) in H. lia.
    + rewrite (Pos2Z.neg_xO p) in H. lia.
    + lia.
Qed.

Lemma iter_shr_lower p :
  forall mrs k, 0 <= k -> k * 2 ^ Zpos p <= shr_m mrs ->
                k <= shr_m (iter_pos shr_1 p mrs).
Proof.
  induction p as [p IH|p IH|]; intros mrs k Hk H; simpl iter_pos.
  - rewrite (Pos2Z.inj_xI p), Z.pow_add_r, Z.pow_twice_r in H by lia.
    change (2 ^ 1) with 2 in H.
    assert (0 < 2 ^ Zpos p) by (apply Z.pow_pos_nonneg; lia).
    apply IH; [lia|]. apply IH; [nia|]. apply shr_1_lower. nia.
  - rewrite (Pos2Z.inj_xO p), Z.pow_twice_r in H.
    assert (0 < 2 ^ Zpos p) by (apply Z.pow_pos_nonneg; lia).
    apply IH; [lia|]. apply IH; [nia|]. nia.
  - apply shr_1_lower. change (2 ^ 1) with 2 in H. lia.
Qed.

Lemma shr_m_of_loc m l : shr_m (shr_record_of_loc m l) = m.
Proof. destruct l as [|[]]; reflexivity. Qed.

Lemma shr_fexp_pos m e l :
  0 < m -> emin <= e ->
  0 < shr_m (fst (shr_fexp prec emax m e l)) /\
  emin <= snd (shr_fexp prec emax m e l).
Proof.
  intros Hm He. destruct m as [|p|p]; try lia.
  unfold shr_fexp, shr. simpl Zdigits2.
  pose proof (digits2_pos_lower p) as Hd.
  destruct (fexp prec emax (Zpos (digits2_pos p) + e) - e) as [|q|q] eqn:En; simpl.
  - rewrite shr_m_of_loc. lia.
  - split.
    + assert (1 <= shr_m (iter_pos shr_1 q (shr_record_of_loc (Zpos p) l))); [|lia].
      apply iter_shr_lower; [lia|]. rewrite shr_m_of_loc.
      assert (Hq : Zpos q <= Zpos (digits2_pos p) - 1)
        by (unfold fexp, SpecFloat.emin, prec, emax in *; lia).
      pose proof (Z.pow_le_mono_r 2 _ _ ltac:(lia) Hq). lia.
    + pose proof (fexp_ge_emin (Zpos (digits2_pos p) + e)). lia.
  - rewrite shr_m_of_loc. lia.
Qed.

Lemma round_nearest_even_pos m l : 0 < m -> 0 < round_nearest_even m l.
Proof.
  destruct l as [|[]]; simpl; try lia. destruct (Z.even m); lia.
Qed.

Lemma binary_round_aux_sign s m e l :
  0 < m -> emin <= e -> has_sign s (binary_round_aux prec emax s m e l).
Proof.
  intros Hm He. unfold binary_round_aux.
  destruct (shr_fexp_pos m e l Hm He) as [H1 H2].
  destruct (shr_fexp prec emax m e l) as [mrs' e']. simpl in H1, H2.
  pose proof (round_nearest_even_pos _ (loc_of_shr_record mrs') H1) as H3.
  destruct (shr_fexp_pos _ e' loc_Exact H3 H2) as [H4 _].
  destruct (shr_fexp prec emax (round_nearest_even (shr_m mrs') (loc_of_shr_record mrs')) e' loc_Exact)
    as [mrs'' e'']. simpl in H4.
  destruct (shr_m mrs''); try lia.
  destruct (e'' <=? emax - prec); reflexivity.
Qed.

Lemma binary_round_sign s m e :
  emin <= e -> has_sign s (binary_round prec emax s m e).
Proof.
  intros He. unfold binary_round.
  destruct (shl_align m e (fexp prec emax (Zpos (digits2_pos m) + e))) as [mz ez] eqn:E.
  apply binary_round_aux_sign; [lia|].
  unfold shl_align in E.
  pose proof (fexp_ge_emin (Zpos (digits2_pos m) + e)).
  destruct (fexp prec emax (Zpos (digits2_pos m) + e) - e) eqn:E'; inversion E; subst.
  all: solve [lia | apply fexp_ge_emin].
Qed.


Lemma valid_finite s m e :
  valid_binary (S754_finite s m e) = true ->
  emin <= e /\ Zpos (digits2_pos m) <= prec /\
  (emin < e -> Zpos (digits2_pos m) = prec).
Proof.
  simpl. unfold bounded, canonical_mantissa, fexp, SpecFloat.emin, prec, emax.
  intros H. apply andb_prop in H. destruct H as [H _].
  apply Z.eqb_eq in H. lia.
Qed.

(** *** Comparison *)

Lemma SFcompare_refl x : x <> S754_nan -> SFcompare x x = Some Eq.
Proof.
  destruct x as [s|s| |s m e]; simpl; intros H.
  - reflexivity.
  - now destruct s.
  - congruence.
  - destruct s; rewrite Z.compare_refl, Pos.compare_cont_refl; reflexivity.
Qed.

Lemma SFcompare_antisym x y :
  SFcompare y x = option_map CompOpp (SFcompare x y).
Proof.
  destruct x as [s|s| |s m e], y as [s'|s'| |s' m' e']; simpl;
    try reflexivity;
    try (destruct s; try destruct s'; reflexivity);
    try (destruct s'; reflexivity).
  destruct s, s'; simpl; try reflexivity.
  - rewrite (Z.compare_antisym e e'). destruct (e ?= e'); simpl; try reflexivity.
    now rewrite (ZC4 m' m).
  - rewrite (Z.compare_antisym e e'). destruct (e ?= e'); simpl; try reflexivity.
    now rewrite (ZC4 m' m).
Qed.

Lemma SFcompare_None x y :
  SFcompare x y = None -> x = S754_nan \/ y = S754_nan.
Proof.
  destruct x as [s|s| |s m e], y as [s'|s'| |s' m' e']; simpl; auto; discriminate.
Qed.

Lemma SFltb_false_SFleb x y :
  x <> S754_nan -> y <> S754_nan -> SFltb x y = false -> SFleb y x = true.
Proof.
  intros Hx Hy. unfold SFltb, SFleb. rewrite (SFcompare_antisym x y).
  destruct (SFcompare x y) as [[]|] eqn:E; simpl; try congruence.
  apply SFcompare_None in E. tauto.
Qed.

Lemma SFltb_SFleb x y : SFltb x y = true -> SFleb x y = true.
Proof.
  unfold SFltb, SFleb. destruct (SFcompare x y) as [[]|]; congruence.
Qed.

(** *** Addition of non-negative numbers *)

Lemma SFadd_pos m e m' e' :
  emin <= e -> emin <= e' ->
  has_sign false (SFadd prec emax (S754_finite false m e) (S754_finite false m' e')).
Proof.
  intros He He'. cbn [SFadd cond_Zopp]. cbn [Z.add].
  apply binary_round_sign. lia.
Qed.

Lemma has_sign_false_pos x : has_sign false x -> SFltb (S754_zero false) x = true.
Proof.
  destruct x as [s|s| |s m e]; simpl; try tauto; intros ->; reflexivity.
Qed.

Lemma has_sign_true_not_pos x : has_sign true x -> SFltb (S754_zero false) x = false.
Proof.
  destruct x as [s|s| |s m e]; simpl; try tauto; intros ->; reflexivity.
Qed.

(** *** Subtraction and comparison *)

Lemma shl_align_fst m e ez :
  ez <= e -> Zpos (fst (shl_align m e ez)) = Zpos m * 2 ^ (e - ez).
Proof.
  intros H. unfold shl_align.
  destruct (ez - e) as [|p|p] eqn:E; try lia.
  - replace (e - ez) with 0 by lia. simpl fst. lia.
  - simpl fst. replace (e - ez) with (Zpos p) by lia.
    change (Pos.iter xO m p) with (shift_pos p m).
    rewrite shift_pos_correct, Z.pow_pos_fold. lia.
Qed.

(** The value of a finite number in units of [2^ez]. *)
Definition aligned (s : bool) (m : positive) (e ez : Z) : Z :=
  cond_Zopp s (Zpos (fst (shl_align m e ez))).

Lemma aligned_compare s m e s' m' e' :
  valid_binary (S754_finite s m e) = true ->
  valid_binary (S754_finite s' m' e') = true ->
  SFcompare (S754_finite s m e) (S754_finite s' m' e') =
  Some (aligned s m e (Z.min e e') ?= aligned s' m' e' (Z.min e e')).
Proof.
  intros V V'. apply valid_finite in V, V'.
  destruct V as (He & Hd & Hn), V' as (He' & Hd' & Hn').
  pose proof (digits2_pos_lower m) as L. pose proof (digits2_pos_upper m) as U.
  pose proof (digits2_pos_lower m') as L'. pose proof (digits2_pos_upper m') as U'.
  unfold aligned.
  rewrite (shl_align_fst m e) by lia. rewrite (shl_align_fst m' e') by lia.
  assert (P : 0 < 2 ^ 52) by reflexivity.
  assert (Hlt : forall a b ea eb : Z, ea < eb -> emin <= ea ->
                 0 < a < 2 ^ 53 -> 2 ^ 52 <= b ->
                 a * 2 ^ (ea - Z.min ea eb) < b * 2 ^ (eb - Z.min ea eb)).
  { intros a b ea eb Hab _ Ha Hb.
    rewrite Z.min_l by lia. rewrite Z.sub_diag, Z.mul_1_r.
    assert (2 ^ 1 <= 2 ^ (eb - ea)) by (apply Z.pow_le_mono_r; lia).
    change (2 ^ 1) with 2 in *. change (2 ^ 53) with (2 * 2 ^ 52) in Ha. nia. }
  assert (B : forall p d, Zpos d <= prec -> Zpos p < 2 ^ Zpos d -> Zpos p < 2 ^ 53).
  { intros p d Hp Hu. unfold prec in Hp.
    pose proof (Z.pow_le_mono_r 2 (Zpos d) 53 ltac:(lia) Hp). lia. }
  assert (N : forall p d e0 e1, e1 < e0 -> emin <= e1 ->
              (emin < e0 -> Zpos d = prec) -> 2 ^ (Zpos d - 1) <= Zpos p -> 2 ^ 52 <= Zpos p).
  { intros p d e0 e1 H1 H2 H3 H4. rewrite H3 in H4 by lia. exact H4. }
  simpl SFcompare.
  destruct (Z.compare_spec e e') as [Heq|Hlt'|Hgt].
  - subst e'. rewrite Z.min_id, Z.sub_diag, !Z.mul_1_r.
    rewrite (Pos.compare_cont_spec m m' Eq). unfold Pos.switch_Eq.
    destruct s, s'; cbn [cond_Zopp Z.opp Z.compare]; f_equal;
      now destruct (m ?= m')%positive.
  - pose proof (Hlt (Zpos m) (Zpos m') e e' Hlt' He
                  (conj (Pos2Z.is_pos m) (B _ _ Hd U)) (N _ _ _ _ Hlt' He Hn' L')) as K.
    assert (0 < Zpos m * 2 ^ (e - Z.min e e')) by (apply Z.mul_pos_pos; [lia | apply Z.pow_pos_nonneg; lia]).
    destruct s, s'; cbn [cond_Zopp]; f_equal; symmetry.
    + apply Z.compare_gt_iff. lia.
    + apply Z.compare_lt_iff. lia.
    + apply Z.compare_gt_iff. lia.
    + apply Z.compare_lt_iff. lia.
  - pose proof (Hlt (Zpos m') (Zpos m) e' e Hgt He'
                  (conj (Pos2Z.is_pos m') (B _ _ Hd' U')) (N _ _ _ _ Hgt He' Hn L)) as K.
    rewrite (Z.min_comm e' e) in K.
    assert (0 < Zpos m' * 2 ^ (e' - Z.min e e')) by (apply Z.mul_pos_pos; [lia | apply Z.pow_pos_nonneg; lia]).
    destruct s, s'; cbn [cond_Zopp]; f_equal; symmetry.
    + apply Z.compare_lt_iff. lia.
    + apply Z.compare_lt_iff. lia.
    + apply Z.compare_gt_iff. lia.
    + apply Z.compare_gt_iff. lia.
Qed.


Lemma SFsub_pos x y :
  valid_binary x = true -> valid_binary y = true ->
  SFltb (S754_zero false) (SFsub prec emax x y) = SFltb y x.
Proof.
  intros Vx Vy.
  destruct x as [s|s| |s m e], y as [s'|s'| |s' m' e'];
    try (destruct s; try destruct s'; reflexivity);
    try (destruct s'; reflexivity); try reflexivity.
  unfold SFltb at 2. rewrite (aligned_compare _ _ _ _ _ _ Vy Vx).
  rewrite (Z.min_comm e' e). cbn [SFsub]. fold (aligned s m e (Z.min e e')).
  fold (aligned s' m' e' (Z.min e e')).
  apply valid_finite in Vx, Vy.
  assert (He : emin <= Z.min e e') by lia.
  destruct (Z.compare_spec (aligned s' m' e' (Z.min e e')) (aligned s m e (Z.min e e')))
    as [E|L|G].
  - rewrite E, Z.sub_diag. reflexivity.
  - destruct (aligned s m e (Z.min e e') - aligned s' m' e' (Z.min e e')) as [|p|p] eqn:D;
      try lia.
    cbn [binary_normalize]. apply has_sign_false_pos. now apply binary_round_sign.
  - destruct (aligned s m e (Z.min e e') - aligned s' m' e' (Z.min e e')) as [|p|p] eqn:D;
      try lia.
    cbn [binary_normalize]. apply has_sign_true_not_pos. now apply binary_round_sign.
Qed.

(** *** The primitive operations *)

Local Open Scope float_scope.

Lemma is_nan_Prim2SF f : is_nan f = false <-> Prim2SF f <> S754_nan.
Proof.
  unfold Prim2SF. destruct (is_nan f); split; try congruence.
  intros _. destruct (is_zero f); [discriminate|].
  destruct (is_infinity f); [discriminate|].
  destruct (Z.frexp f) as [r ex].
  destruct (shr_fexp prec emax _ _ _) as [mrs e'].
  destruct (shr_m mrs); discriminate.
Qed.

Lemma ltb_false_leb a b :
  is_nan a = false -> is_nan b = false -> (a <? b) = false -> (b <=? a) = true.
Proof.
  rewrite ltb_spec, leb_spec, !is_nan_Prim2SF. apply SFltb_false_SFleb.
Qed.

Lemma ltb_leb a b : (a <? b) = true -> (a <=? b) = true.
Proof. rewrite ltb_spec, leb_spec. apply SFltb_SFleb. Qed.

Lemma leb_refl a : is_nan a = false -> (a <=? a) = true.
Proof.
  rewrite leb_spec, is_nan_Prim2SF. intros H. unfold SFleb.
  now rewrite SFcompare_refl.
Qed.

Lemma ltb_not_nan a b : (a <? b) = true -> is_nan a = false /\ is_nan b = false.
Proof.
  rewrite ltb_spec, !is_nan_Prim2SF. unfold SFltb.
  destruct (Prim2SF a), (Prim2SF b); simpl; try discriminate; split; discriminate.
Qed.

Lemma leb_not_nan a b : (a <=? b) = true -> is_nan a = false /\ is_nan b = false.
Proof.
  rewrite leb_spec, !is_nan_Prim2SF. unfold SFleb.
  destruct (Prim2SF a), (Prim2SF b); simpl; try discriminate; split; discriminate.
Qed.

(** [b.value - a.value > 0] exactly when [a.value < b.value]. *)
Lemma sub_pos a b : (0 <? a - b) = (b <? a).
Proof.
  rewrite !ltb_spec, sub_spec. change (Prim2SF 0) with (S754_zero false).
  apply SFsub_pos; apply Prim2SF_valid.
Qed.

(** A count that has been incremented is positive. *)
Lemma add_one_pos c : (0 <=? c) = true -> (0 <? c + 1) = true.
Proof.
  rewrite leb_spec, ltb_spec, add_spec.
  change (Prim2SF 0) with (S754_zero false).
  change (Prim2SF 1) with (S754_finite false 4503599627370496 (-52)).
  pose proof (Prim2SF_valid c) as V. unfold SF64add.
  destruct (Prim2SF c) as [s|s| |s m e]; try discriminate.
  - reflexivity.
  - destruct s; [discriminate | reflexivity].
  - destruct s; [discriminate|]. intros _.
    apply has_sign_false_pos, SFadd_pos.
    + apply valid_finite in V. tauto.
    + unfold SpecFloat.emin, prec, emax. lia.
Qed.

Lemma pos_truthy f : (0 <? f) = true -> (is_zero f || is_nan f)%bool = false.
Proof.
  unfold is_zero, is_nan. rewrite ltb_spec, !eqb_spec.
  change (Prim2SF 0) with (S754_zero false). unfold SFltb, SFeqb.
  destruct (Prim2SF f) as [s|s| |s m e] eqn:E; simpl; try discriminate.
  - destruct s; [discriminate | reflexivity].
  - destruct s; [discriminate|]. intros _.
    now rewrite Z.compare_refl, Pos.compare_cont_refl.
Qed.

End FloatFacts.

(** *** Division by one *)

Module FloatDivision.

Import FloatFacts.

Local Open Scope Z_scope.

Lemma valid_finite_max s m e :
  valid_binary (S754_finite s m e) = true -> e <= emax - prec.
Proof.
  simpl. unfold bounded. intros H. apply andb_prop in H. destruct H as [_ H].
  now apply Z.leb_le in H.
Qed.

Lemma div_eucl_exact a b : 0 < b -> Z.div_eucl (a * b) b = (a, 0).
Proof.
  intros Hb.
  pose proof (Z.div_mul a b ltac:(lia)) as Hq.
  pose proof (Z.mod_mul a b ltac:(lia)) as Hr.
  unfold Z.div, Z.modulo in Hq, Hr.
  destruct (Z.div_eucl (a * b) b) as [q r]. simpl in *. congruence.
Qed.

(** A number of the format, rounded, is itself. *)
Lemma binary_round_aux_exact s m e :
  Zpos (digits2_pos m) + e - 53 <= e -> emin <= e ->
  (emin < e -> Zpos (digits2_pos m) = prec) ->
  e <= emax - prec ->
  binary_round_aux prec emax s (Zpos m) e loc_Exact = S754_finite s m e.
Proof.
  intros Hd He Hn Hmax.
  assert (F : fexp prec emax (Zpos (digits2_pos m) + e) - e = 0).
  { unfold fexp, SpecFloat.emin, prec, emax in *. lia. }
  unfold binary_round_aux, shr_fexp. cbn [Zdigits2].
  rewrite F. cbn [shr shr_record_of_loc shr_m loc_of_shr_record round_nearest_even].
  cbn [Zdigits2]. rewrite F. cbn [shr shr_record_of_loc shr_m].
  apply Z.leb_le in Hmax. now rewrite Hmax.
Qed.

Lemma digits2_double m : digits2_pos (m~0) = Pos.succ (digits2_pos m).
Proof. reflexivity. Qed.

Lemma SFdiv_one s m e :
  valid_binary (S754_finite s m e) = true ->
  SFdiv prec emax (S754_finite s m e) (S754_finite false 4503599627370496 (-52))
  = S754_finite s m e.
Proof.
  intros V. pose proof (valid_finite_max _ _ _ V) as Hmax.
  apply valid_finite in V. destruct V as (He & Hd & Hn).
  cbn [SFdiv]. rewrite xorb_false_r.
  unfold SFdiv_core_binary.
  change (Zdigits2 4503599627370496) with 53. cbn [Zdigits2].
  destruct (Z.eq_dec e emin) as [->|Hne].
  - (* the least exponent *)
    assert (E : Z.min (fexp prec emax (Zpos (digits2_pos m) + emin - (53 + -52)))
                  (emin - -52) = emin).
    { unfold fexp, SpecFloat.emin, prec, emax in *. lia. }
    rewrite E. change (emin - -52 - emin) with 52.
    rewrite Z.shiftl_mul_pow2 by lia.
    change (2 ^ 52) with 4503599627370496.
    rewrite div_eucl_exact by lia.
    change (new_location 4503599627370496 0) with loc_Exact.
    apply binary_round_aux_exact; unfold SpecFloat.emin, prec, emax in *; lia.
  - assert (Hp : Zpos (digits2_pos m) = prec) by (apply Hn; lia).
    assert (E : Z.min (fexp prec emax (Zpos (digits2_pos m) + e - (53 + -52)))
                  (e - -52) = e - 1).
    { unfold fexp, SpecFloat.emin, prec, emax in *. lia. }
    rewrite E. replace (e - -52 - (e - 1)) with 53 by lia.
    rewrite Z.shiftl_mul_pow2 by lia.
    replace (Zpos m * 2 ^ 53) with (Zpos (m~0) * 4503599627370496)
      by (rewrite (Pos2Z.inj_xO m); change (2 ^ 53) with (2 * 4503599627370496); lia).
    rewrite div_eucl_exact by lia.
    change (new_location 4503599627370496 0) with loc_Exact.
    (* one digit too many: the rounding shifts it out *)
    unfold binary_round_aux, shr_fexp. cbn [Zdigits2].
    rewrite digits2_double, Pos2Z.inj_succ.
    assert (F : fexp prec emax (Z.succ (Zpos (digits2_pos m)) + (e - 1)) - (e - 1) = 1).
    { unfold fexp, SpecFloat.emin, prec, emax in *. lia. }
    rewrite F.
    cbn [shr shr_record_of_loc iter_pos shr_1 shr_m shr_r shr_s
         loc_of_shr_record round_nearest_even orb].
    cbn [Zdigits2].
    assert (F' : fexp prec emax (Zpos (digits2_pos m) + (e - 1 + 1)) - (e - 1 + 1) = 0).
    { unfold fexp, SpecFloat.emin, prec, emax in *. lia. }
    rewrite F'. cbn [shr shr_record_of_loc shr_m].
    replace (e - 1 + 1) with e by lia.
    apply Z.leb_le in Hmax. now rewrite Hmax.
Qed.

Local Open Scope float_scope.

(** [x / 1] is [x]. *)
Lemma div_one x : x / 1 = x.
Proof.
  transitivity (SF2Prim (Prim2SF (x / 1))); [symmetry; apply SF2Prim_Prim2SF|].
  transitivity (SF2Prim (Prim2SF x)); [|apply SF2Prim_Prim2SF].
  f_equal. rewrite div_spec.
  change (Prim2SF 1) with (S754_finite false 4503599627370496 (-52)).
  pose proof (Prim2SF_valid x) as V. unfold SF64div.
  destruct (Prim2SF x) as [s|s| |s m e]; try reflexivity.
  - cbn [SFdiv]. now rewrite xorb_false_r.
  - cbn [SFdiv]. now rewrite xorb_false_r.
  - now apply SFdiv_one.
Qed.

End FloatDivision.

(** ** Sorting *)

Section SortFacts.

Context {A : Type}.
Variable after : A -> A -> bool.

Lemma insert_sorted_perm x l : Permutation (insert_sorted after x l) (x :: l).
Proof.
  induction l as [|y l IH]; simpl; [reflexivity|].
  destruct (after y x); [reflexivity|].
  rewrite IH. apply perm_swap.
Qed.

Lemma sort_from_perm l : forall acc,
  Permutation (fold_left (fun acc x => insert_sorted after x acc) l acc) (acc ++ l).
Proof.
  induction l as [|x l IH]; intros acc; simpl.
  - now rewrite app_nil_r.
  - rewrite IH, insert_sorted_perm. apply Permutation_middle.
Qed.

Lemma sort_perm l : Permutation (sort after l) l.
Proof. unfold sort. now rewrite sort_from_perm. Qed.

Lemma sort_length l : length (sort after l) = length l.
Proof. apply Permutation_length, sort_perm. Qed.

Lemma sort_In x l : In x (sort after l) <-> In x l.
Proof.
  split; apply Permutation_in; [|symmetry]; apply sort_perm.
Qed.

(** A relation [R] the comparator decides on the elements that satisfy [P]:
    the sorted array is ordered by [R]. *)
Variable P : A -> Prop.
Variable R : A -> A -> Prop.
Hypothesis after_false : forall a b, P a -> P b -> after a b = false -> R a b.
Hypothesis after_true : forall a b, P a -> P b -> after a b = true -> R b a.

Lemma insert_sorted_HdRel a x l :
  HdRel R a l -> R a x -> HdRel R a (insert_sorted after x l).
Proof.
  intros Hl Hx. destruct l as [|y l]; simpl.
  - now constructor.
  - destruct (after y x); constructor; auto. now inversion Hl.
Qed.

Lemma insert_sorted_Sorted x l :
  P x -> Forall P l -> Sorted R l -> Sorted R (insert_sorted after x l).
Proof.
  intros Hx. induction l as [|y l IH]; simpl; intros HP HS.
  - repeat constructor.
  - inversion HP as [|? ? Py Pl]; subst. inversion HS as [|? ? Sl Hd]; subst.
    destruct (after y x) eqn:E.
    + constructor; [assumption|]. constructor. now apply after_true.
    + constructor; [now apply IH|].
      apply insert_sorted_HdRel; [assumption|]. now apply after_false.
Qed.

Lemma sort_from_Sorted l : forall acc,
  Forall P l -> Forall P acc -> Sorted R acc ->
  Sorted R (fold_left (fun acc x => insert_sorted after x acc) l acc).
Proof.
  induction l as [|x l IH]; intros acc Hl Hacc HS; simpl; [assumption|].
  inversion Hl; subst. apply IH; [assumption| |].
  - eapply Permutation_Forall; [symmetry; apply insert_sorted_perm|].
    now constructor.
  - now apply insert_sorted_Sorted.
Qed.

Lemma sort_Sorted l : Forall P l -> Sorted R (sort after l).
Proof.
  intros H. apply sort_from_Sorted; auto.
Qed.

End SortFacts.

(** ** Coercion *)

Lemma or_zero_not_nan f : isNaN (or_zero f) = false.
Proof.
  unfold or_zero, truthy_num, isNaN.
  destruct (PrimFloat.is_zero f); simpl; [reflexivity|].
  destruct (PrimFloat.is_nan f) eqn:E; simpl; [reflexivity | exact E].
Qed.

Lemma coerce_not_nan c : isNaN (coerce c) = false.
Proof. apply or_zero_not_nan. Qed.

Lemma field_set (o : record) k k' v :
  field (obj_set k v o) k' = if String.eqb k k' then v else field o k'.
Proof.
  unfold field. rewrite obj_get_set. now destruct (String.eqb k k').
Qed.

Lemma field_delete (o : record) k k' :
  field (obj_delete k o) k' =
  if String.eqb k k' then inherited_value k' else field o k'.
Proof.
  unfold field. rewrite obj_get_delete. now destruct (String.eqb k k').
Qed.

(** *** Assignments *)

Lemma obj_assign_set {A : Type} k (v : A) o :
  k <> "__proto__" -> obj_assign k v o = obj_set k v o.
Proof.
  intros H. unfold obj_assign.
  destruct (String.eqb_spec k "__proto__"); [contradiction | reflexivity].
Qed.

Lemma obj_get_assign_other {A : Type} k k' (v : A) o :
  k <> k' -> obj_get k' (obj_assign k v o) = obj_get k' o.
Proof.
  intros H. unfold obj_assign. destruct (_ && _)%bool; [reflexivity|].
  rewrite obj_get_set. now destruct (String.eqb_spec k k').
Qed.

Lemma obj_has_assign_other {A : Type} k k' (v : A) o :
  k <> k' -> obj_has k' (obj_assign k v o) = obj_has k' o.
Proof.
  intros H. unfold obj_has. now rewrite obj_get_assign_other.
Qed.

(** An assignment gives an object no property [__proto__]. *)
Lemma obj_has_assign_proto {A : Type} k (v : A) o :
  obj_has "__proto__" (obj_assign k v o) = obj_has "__proto__" o.
Proof.
  unfold obj_assign. destruct (String.eqb_spec k "__proto__") as [->|Hne].
  - destruct (obj_has "__proto__" o) eqn:E; cbn [negb andb]; [|exact E].
    now rewrite obj_has_set, String.eqb_refl.
  - cbn [andb]. rewrite obj_has_set.
    now destruct (String.eqb_spec k "__proto__").
Qed.

Lemma field_assign_other (o : record) k k' v :
  k <> k' -> field (obj_assign k v o) k' = field o k'.
Proof.
  intros H. unfold field. now rewrite obj_get_assign_other.
Qed.

(** *** The keys of the counts

    No member of [Object.prototype] is the key of a count. *)

Fixpoint has_suffix (suffix s : string) : bool :=
  String.eqb s suffix
  || match s with
     | String _ s' => has_suffix suffix s'
     | EmptyString => false
     end.

Lemma has_suffix_append (a suffix : string) :
  has_suffix suffix (a ++ suffix) = true.
Proof.
  induction a as [|c a IH]; simpl.
  - destruct suffix; simpl; [reflexivity|].
    now rewrite Ascii.eqb_refl, String.eqb_refl.
  - rewrite IH. apply orb_true_r.
Qed.

Lemma is_member_count (g : string) : is_member (g ++ "_count") = false.
Proof.
  apply not_true_is_false. intros H. unfold is_member in H.
  apply existsb_exists in H. destruct H as (m & Hm & E).
  apply String.eqb_eq in E.
  assert (Hs : has_suffix "_count" m = true)
    by (rewrite <- E; apply has_suffix_append).
  unfold prototype_members in Hm. simpl in Hm.
  repeat (destruct Hm as [<-|Hm]; [vm_compute in Hs; discriminate|]).
  contradiction.
Qed.

Lemma not_proto_count (g : string) : (g ++ "_count")%string <> "__proto__".
Proof.
  intros E. pose proof (is_member_count g) as H. rewrite E in H. discriminate.
Qed.

(** ** Scatter *)

Module ScatterFacts.

Import Transformer.

(** The test of the filter holds of every record the map produces: the two
    fields it reads hold [parseFloat(...) || 0], which is never [NaN]. *)
Lemma scatter_test_true (r : row) x y :
  let o := obj_set y (VNum (coerce (row_get y r)))
             (obj_set x (VNum (coerce (row_get x r))) (spread r)) in
  (negb (isNaN_value (field o x)) && negb (isNaN_value (field o y)))%bool = true.
Proof.
  cbv zeta. rewrite !field_set, !String.eqb_refl.
  destruct (String.eqb y x); unfold isNaN_value; cbn [ToNumber];
    rewrite !coerce_not_nan; reflexivity.
Qed.

(** The filter of [prepareScatterData] removes nothing. *)
Lemma prepareScatterData_map data x y :
  prepareScatterData data x y =
  map (fun r => obj_set y (VNum (coerce (row_get y r)))
                  (obj_set x (VNum (coerce (row_get x r))) (spread r)))
      data.
Proof.
  unfold prepareScatterData. induction data as [|r data IH]; simpl; [reflexivity|].
  rewrite (scatter_test_true r x y). now rewrite IH.
Qed.

(** C1.  A row whose x cell does not parse as a number is not excluded by
    [prepareScatterData]: it is kept, with 0 in the place of the cell. *)
Theorem scatter_keeps_unparseable_row :
  prepareScatterData [[("a", "abc"); ("b", "2")]] "a" "b"
  = [[("a", VNum 0%float); ("b", VNum 2%float)]].
Proof. vm_compute. reflexivity. Qed.

End ScatterFacts.

(** ** The validator *)

Module ValidatorFacts.

Import Validator.

(** A required field that [chartConfig] does not have.  Of a [chartConfig]
    that is not an object every field is absent. *)
Definition absent (field : string) (chartConfig : json) : Prop :=
  js_in field chartConfig <> Some true.

Definition present (field : string) (chartConfig : json) : Prop :=
  js_in field chartConfig = Some true.

(** [v] is one of the strings of [l]. *)
Definition one_of (l : list string) (v : option json) : Prop :=
  exists s, v = Some (JStr s) /\ In s l.

Lemma includes_one_of l v : includes l v = true <-> one_of l v.
Proof.
  unfold includes, one_of. split.
  - destruct v as [[]|]; try discriminate. intros H.
    apply existsb_exists in H. destruct H as (t & Hin & E).
    apply String.eqb_eq in E. subst. eauto.
  - intros (s & -> & Hin). apply existsb_exists. exists s.
    split; [assumption | apply String.eqb_refl].
Qed.

Lemma includes_not_one_of l v : includes l v = false <-> ~ one_of l v.
Proof.
  rewrite <- includes_one_of. destruct (includes l v); split; congruence.
Qed.

Lemma check_required_None fields chartConfig :
  check_required fields chartConfig = None <->
  Forall (fun f => present f chartConfig) fields.
Proof.
  unfold present. induction fields as [|f fields IH]; simpl.
  - split; auto.
  - destruct (js_in f chartConfig) as [[]|] eqn:E.
    + rewrite IH. split; [now constructor | now inversion 1].
    + split; [discriminate | inversion 1; congruence].
    + split; [discriminate | inversion 1; congruence].
Qed.

(** The loop stops at the first required field that is absent. *)
Lemma check_required_Some fields chartConfig r :
  check_required fields chartConfig = Some r ->
  exists before f after,
    fields = before ++ f :: after /\
    Forall (fun f => present f chartConfig) before /\
    ((js_in f chartConfig = Some false /\ r = MissingField f) \/
     (js_in f chartConfig = None /\ r = InternalError)).
Proof.
  unfold present. induction fields as [|f fields IH]; simpl; [discriminate|].
  destruct (js_in f chartConfig) as [[]|] eqn:E.
  - intros H. destruct (IH H) as (before & f' & after & -> & Hb & Hf).
    exists (f :: before), f', after. repeat split; auto.
  - intros [= <-]. exists [], f, fields. repeat split; auto.
  - intros [= <-]. exists [], f, fields. repeat split; auto.
Qed.

(** C8.  The validator rejects the request exactly when a required field is
    absent, or [chartType] is not one of the five chart types, or [x] or [y]
    is not a column of the dataset; the three checks are made in this order,
    each with an error of its own, and the first required field that is
    absent is the one reported. *)
Theorem validate_rejects_exactly (columns : list string) (rows : list row)
    (chartConfig : json) :
  ((exists r, validate columns rows chartConfig = inl r) <->
   (exists f, In f requiredFields /\ absent f chartConfig) \/
   ~ one_of validChartTypes (prop "chartType" chartConfig) \/
   ~ one_of columns (prop "x" chartConfig) \/
   ~ one_of columns (prop "y" chartConfig))
  /\
  ((exists f, In f requiredFields /\ absent f chartConfig) ->
   exists before f after,
     requiredFields = before ++ f :: after /\
     Forall (fun f => present f chartConfig) before /\
     ((js_in f chartConfig = Some false /\
       validate columns rows chartConfig = inl (MissingField f)) \/
      (js_in f chartConfig = None /\
       validate columns rows chartConfig = inl InternalError)))
  /\
  (Forall (fun f => present f chartConfig) requiredFields ->
   ~ one_of validChartTypes (prop "chartType" chartConfig) ->
   validate columns rows chartConfig
   = inl (InvalidChartType (prop "chartType" chartConfig)))
  /\
  (Forall (fun f => present f chartConfig) requiredFields ->
   one_of validChartTypes (prop "chartType" chartConfig) ->
   ~ one_of columns (prop "x" chartConfig) \/
   ~ one_of columns (prop "y" chartConfig) ->
   validate columns rows chartConfig = inl ColumnsNotFound).
Proof.
  assert (Habs : (exists f, In f requiredFields /\ absent f chartConfig) <->
                 check_required requiredFields chartConfig <> None).
  { rewrite check_required_None, Forall_forall. unfold absent, present. split.
    - intros (f & Hin & Hf) H. apply Hf, H, Hin.
    - intros H. destruct (check_required requiredFields chartConfig) as [r|] eqn:E.
      + apply check_required_Some in E.
        destruct E as (before & f & after & Hl & _ & Hf).
        exists f. split; [rewrite Hl; apply in_elt|].
        destruct Hf as [[Hf _]|[Hf _]]; congruence.
      + exfalso. apply H. intros f Hin.
        apply check_required_None in E. rewrite Forall_forall in E. now apply E. }
  repeat split.
  - intros [r Hr]. unfold validate in Hr.
    destruct (check_required requiredFields chartConfig) eqn:E.
    { left. apply Habs. congruence. }
    destruct (includes validChartTypes (prop "chartType" chartConfig)) eqn:E1;
      [|right; left; now apply includes_not_one_of].
    destruct (includes columns (prop "x" chartConfig)) eqn:E2;
      [|right; right; left; now apply includes_not_one_of].
    destruct (includes columns (prop "y" chartConfig)) eqn:E3;
      [|right; right; right; now apply includes_not_one_of].
    discriminate.
  - intros H. unfold validate.
    destruct (check_required requiredFields chartConfig) eqn:E; [eauto|].
    destruct H as [H|[H|[H|H]]].
    + apply Habs in H. congruence.
    + apply includes_not_one_of in H. rewrite H. simpl. eauto.
    + apply includes_not_one_of in H. rewrite H. simpl.
      destruct (includes validChartTypes _); simpl; eauto.
    + apply includes_not_one_of in H. rewrite H. simpl.
      destruct (includes validChartTypes _); simpl; eauto.
      rewrite orb_true_r. eauto.
  - intros H. apply Habs in H. unfold validate.
    destruct (check_required requiredFields chartConfig) as [r|] eqn:E; [|congruence].
    apply check_required_Some in E.
    destruct E as (before & f & after & Hl & Hb & [[Hf ->]|[Hf ->]]);
      exists before, f, after; auto.
  - intros Hall H. apply check_required_None in Hall.
    apply includes_not_one_of in H. unfold validate. now rewrite Hall, H.
  - intros Hall H1 H2. apply check_required_None in Hall.
    apply includes_one_of in H1. unfold validate. rewrite Hall, H1. simpl.
    destruct H2 as [H2|H2]; apply includes_not_one_of in H2; rewrite H2;
      [reflexivity | now rewrite orb_true_r].
Qed.

Lemma or_null_falsy v : truthy_json v = false -> or_null v = JNull.
Proof.
  unfold or_null. destruct v as [j|]; [|reflexivity]. now intros ->.
Qed.

(** C9.  A specification that passes the three checks is returned with
    [groupBy] either [null] or the name of a column and with [dataTransform]
    one of the four modes: a [groupBy] that names no column is replaced by
    [null], a [dataTransform] that is absent or is not one of the four is
    replaced by ["none"], and valid values are returned as they are. *)
Theorem validate_repairs (columns : list string) (rows : list row)
    (chartConfig : json) (spec : ChartSpec) :
  validate columns rows chartConfig = inr spec ->
  (groupBy spec = JNull \/ exists c, groupBy spec = JStr c /\ In c columns)
  /\ one_of validTransforms (dataTransform spec)
  /\ (~ one_of columns (prop "groupBy" chartConfig) -> groupBy spec = JNull)
  /\ (forall c, prop "groupBy" chartConfig = Some (JStr c) -> In c columns ->
                c <> "" -> groupBy spec = JStr c)
  /\ (~ one_of validTransforms (prop "dataTransform" chartConfig) ->
      dataTransform spec = Some (JStr "none"))
  /\ (one_of validTransforms (prop "dataTransform" chartConfig) ->
      dataTransform spec = prop "dataTransform" chartConfig).
Proof.
  unfold validate.
  destruct (check_required requiredFields chartConfig); [discriminate|].
  destruct (negb (includes validChartTypes _)); [discriminate|].
  destruct (_ || _)%bool; [discriminate|].
  intros [= <-]. cbn [groupBy dataTransform].
  set (g := prop "groupBy" chartConfig).
  set (t := prop "dataTransform" chartConfig).
  assert (Ht : forall s, In s validTransforms -> truthy_json (Some (JStr s)) = true).
  { intros s Hs. simpl in Hs. decompose [or] Hs; subst; try reflexivity. contradiction. }
  repeat split.
  - destruct (includes columns g) eqn:Eg.
    + rewrite andb_false_r. apply includes_one_of in Eg.
      destruct Eg as (c & -> & Hc). simpl.
      destruct (negb (c =? "")); [right; eauto | now left].
    + destruct (truthy_json g) eqn:Tg; cbn [andb negb]; [now left|].
      left. now apply or_null_falsy.
  - destruct (includes validTransforms t) eqn:Et.
    + apply includes_one_of in Et. destruct Et as (s & E & Hs).
      rewrite E, (Ht s Hs). simpl. exists s. auto.
    + rewrite orb_true_r. exists "none". simpl. auto.
  - intros H. apply includes_not_one_of in H. rewrite H.
    destruct (truthy_json g) eqn:Tg; cbn [andb negb]; [reflexivity|].
    now apply or_null_falsy.
  - intros c E Hc Hne. rewrite E.
    assert (Hi : includes columns (Some (JStr c)) = true)
      by (apply includes_one_of; exists c; auto).
    rewrite Hi, andb_false_r. simpl.
    destruct (String.eqb_spec c ""); [contradiction | reflexivity].
  - intros H. apply includes_not_one_of in H. now rewrite H, orb_true_r.
  - intros H. destruct H as (s & E & Hs). rewrite E.
    assert (Hi : includes validTransforms (Some (JStr s)) = true)
      by (apply includes_one_of; exists s; auto).
    now rewrite Hi, (Ht s Hs).
Qed.

(** The example of the specification: a [groupBy] that names no column. *)
Definition sample_config : json :=
  JObj [("chartType", JStr "bar"); ("x", JStr "month"); ("y", JStr "sales");
        ("groupBy", JStr "nonexistent_col"); ("summary", JStr "Sales by month")].

Lemma validate_repairs_witness :
  exists spec,
    validate ["month"; "sales"; "region"] [] sample_config = inr spec
    /\ groupBy spec = JNull
    /\ dataTransform spec = Some (JStr "none").
Proof.
  eexists. split; [reflexivity|].
  destruct (validate_repairs ["month"; "sales"; "region"] [] sample_config _
              eq_refl) as (_ & _ & Hg & _ & Ht & _).
  split; [apply Hg | apply Ht]; now apply includes_not_one_of.
Defined.

End ValidatorFacts.

(** ** The keys of an object *)

Section ObjectKeys.

Context {A : Type}.
Implicit Types (o : object A) (k : string) (v : A).

Lemma obj_keys_insert_index n k v o :
  Permutation (obj_keys (obj_insert_index n k v o)) (k :: obj_keys o).
Proof.
  induction o as [|[k0 v0] o IH]; simpl; [reflexivity|].
  destruct (array_index k0) as [n0|]; [destruct (n0 <? n)%Z|]; simpl;
    try reflexivity.
  rewrite IH. apply perm_swap.
Qed.

Lemma obj_keys_set k v o :
  Permutation (obj_keys (obj_set k v o))
    (if obj_has k o then obj_keys o else k :: obj_keys o).
Proof.
  unfold obj_set. destruct (obj_has k o).
  - now rewrite obj_keys_replace.
  - destruct (array_index k) as [n|].
    + apply obj_keys_insert_index.
    + unfold obj_keys. rewrite map_app. simpl.
      symmetry. apply Permutation_cons_append.
Qed.

Lemma NoDup_obj_set k v o :
  NoDup (obj_keys o) -> NoDup (obj_keys (obj_set k v o)).
Proof.
  intros H. eapply Permutation_NoDup; [symmetry; apply obj_keys_set|].
  destruct (obj_has k o) eqn:E; [assumption|].
  constructor; [|assumption]. intros Hin. apply obj_has_keys in Hin. congruence.
Qed.

Lemma obj_set_length k v o :
  length (obj_set k v o) = if obj_has k o then length o else S (length o).
Proof.
  rewrite <- !(length_map fst). fold (obj_keys (obj_set k v o)) (obj_keys o).
  rewrite (Permutation_length (obj_keys_set k v o)).
  now destruct (obj_has k o).
Qed.

End ObjectKeys.

(** ** The profiler *)

Module ProfilerFacts.

Import Profiler.

(** How many of [types] are [t]. *)
Definition count (t : string) (types : list string) : nat :=
  length (filter (String.eqb t) types).

Lemma count_two t t' types :
  t <> t' -> count t types + count t' types <= length types.
Proof.
  intros Hne. unfold count. induction types as [|u types IH]; simpl; [lia|].
  destruct (String.eqb_spec t u), (String.eqb_spec t' u); simpl; try lia.
  congruence.
Qed.

Definition lookup0 (t : string) (acc : object nat) : nat :=
  match obj_get t acc with
  | Some n => n
  | None => 0
  end.

Lemma typeCounts_from types : forall acc t,
  obj_get t (fold_left tally types acc) =
  if Nat.eqb (count t types) 0 then obj_get t acc
  else Some (lookup0 t acc + count t types).
Proof.
  unfold count.
  induction types as [|u types IH]; intros acc t; simpl; [reflexivity|].
  rewrite IH. unfold lookup0, tally. rewrite obj_get_set.
  rewrite (String.eqb_sym t u).
  destruct (String.eqb_spec u t); subst; simpl.
  - destruct (length (filter (String.eqb t) types)); simpl;
      destruct (obj_get t acc); f_equal; lia.
  - reflexivity.
Qed.

Lemma typeCounts_get types t :
  obj_get t (typeCounts types) =
  if Nat.eqb (count t types) 0 then None else Some (count t types).
Proof.
  unfold typeCounts. rewrite typeCounts_from. reflexivity.
Qed.

Lemma typeCounts_NoDup types : NoDup (obj_keys (typeCounts types)).
Proof.
  unfold typeCounts. assert (H : NoDup (obj_keys ([] : object nat))) by constructor.
  revert H. generalize ([] : object nat).
  induction types as [|u types IH]; intros acc H; simpl; [assumption|].
  apply IH. now apply NoDup_obj_set.
Qed.

(** The entries of [typeCounts] are the types that occur, each with the
    number of its occurrences. *)
Lemma typeCounts_In types t c :
  In (t, c) (typeCounts types) <-> c = count t types /\ c <> 0.
Proof.
  split.
  - intros H. apply In_obj_get in H; [|apply typeCounts_NoDup].
    rewrite typeCounts_get in H.
    destruct (Nat.eqb_spec (count t types) 0); [discriminate|].
    inversion H. lia.
  - intros [-> Hc]. apply obj_get_In. rewrite typeCounts_get.
    now destruct (Nat.eqb_spec (count t types) 0).
Qed.

(** The first of [sortedTypes] is a type that occurs most often. *)
Lemma sortedTypes_head types t c rest :
  sortedTypes types = (t, c) :: rest ->
  c = count t types /\ c <> 0 /\ forall u, count u types <= c.
Proof.
  intros E.
  assert (Hin : In (t, c) (typeCounts types)).
  { apply (sort_In count_after). unfold sortedTypes in E. rewrite E. now left. }
  apply typeCounts_In in Hin. destruct Hin as [Hc Hne]. repeat split; auto.
  intros u. destruct (Nat.eq_dec (count u types) 0) as [->|Hu]; [lia|].
  assert (Hs : Sorted (fun a b => snd b <= snd a) (sortedTypes types)).
  { apply (sort_Sorted count_after (fun _ => True)).
    - intros a b _ _ H. apply Nat.ltb_ge in H. exact H.
    - intros a b _ _ H. apply Nat.ltb_lt in H. lia.
    - apply Forall_forall. auto. }
  apply Sorted_StronglySorted in Hs; [|intros a b d; simpl; lia].
  rewrite E in Hs. inversion Hs as [|? ? _ Hall]; subst.
  assert (Hu' : In (u, count u types) (sortedTypes types)).
  { apply sort_In. apply typeCounts_In. auto. }
  rewrite E in Hu'. destruct Hu' as [Hu'|Hu'].
  - inversion Hu'. lia.
  - rewrite Forall_forall in Hall. apply (Hall _ Hu').
Qed.

Lemma sortedTypes_nonempty types : types <> [] -> sortedTypes types <> [].
Proof.
  destruct types as [|u types]; [congruence|]. intros _ E.
  assert (Hin : In (u, count u (u :: types)) (sortedTypes (u :: types))).
  { apply sort_In, typeCounts_In. split; [reflexivity|].
    unfold count. simpl. now rewrite String.eqb_refl. }
  rewrite E in Hin. contradiction.
Qed.

Section Column.

Variable validDate : string -> bool.

(** The number of values of a column that classify as [t]. *)
Definition count_type (t : string) (values : list cell) : nat :=
  count t (map (getValueType validDate) values).

Lemma inferType_majority values t :
  length values < 2 * count_type t values -> inferType validDate values = t.
Proof.
  unfold count_type, inferType. intros H.
  destruct values as [|v values]; [simpl in H; unfold count in H; simpl in H; lia|].
  set (types := map (getValueType validDate) (v :: values)) in *.
  assert (Hlen : length types = length (v :: values)) by apply length_map.
  destruct (sortedTypes types) as [|[t0 c0] rest] eqn:E.
  - exfalso. apply (sortedTypes_nonempty types); [discriminate | exact E].
  - apply sortedTypes_head in E. destruct E as (Hc & _ & Hmax).
    assert (t0 = t).
    { destruct (string_dec t0 t) as [|Hne]; [assumption|].
      pose proof (count_two t0 t types Hne). pose proof (Hmax t). lia. }
    subst t0. unfold over_half.
    destruct (Nat.ltb_spec (length types) (2 * c0)); [reflexivity | lia].
Qed.

Lemma inferType_no_majority values :
  (forall t, 2 * count_type t values <= length values) ->
  inferType validDate values = "text".
Proof.
  unfold count_type, inferType. intros H.
  destruct values as [|v values]; [reflexivity|].
  set (types := map (getValueType validDate) (v :: values)) in *.
  assert (Hlen : length types = length (v :: values)) by apply length_map.
  destruct (sortedTypes types) as [|[t0 c0] rest] eqn:E; [reflexivity|].
  apply sortedTypes_head in E. destruct E as (Hc & _ & _).
  unfold over_half. pose proof (H t0).
  destruct (Nat.ltb_spec (length types) (2 * c0)); [lia | reflexivity].
Qed.

(** The classification of one string: numeric first, then date, then text. *)
Definition looks_numeric (value : string) : bool :=
  negb (isNaN (parseFloat_string value))
  && isFinite (Number_string value)
  && negb (String.eqb (trim value) "").

Lemma getValueType_cases value :
  (getValueType validDate (Str value) = "numeric" <->
   looks_numeric value = true)
  /\ (getValueType validDate (Str value) = "date" <->
      looks_numeric value = false /\
      (validDate value && negb (String.eqb (trim value) ""))%bool = true)
  /\ (getValueType validDate (Str value) = "text" <->
      looks_numeric value = false /\
      (validDate value && negb (String.eqb (trim value) ""))%bool = false).
Proof.
  unfold getValueType, looks_numeric.
  destruct (_ && _ && _)%bool; [|destruct (_ && _)%bool];
    repeat split; intros; try discriminate; try tauto;
    match goal with H : _ /\ _ |- _ => destruct H; discriminate end.
Qed.

(** A value that classifies as numeric is a string. *)
Lemma getValueType_numeric v :
  getValueType validDate v = "numeric" ->
  exists s, v = Str s /\ looks_numeric s = true.
Proof.
  destruct v as [s| |m]; try discriminate. intros H.
  exists s. split; [reflexivity | now apply getValueType_cases].
Qed.

(** *** The values of a column, from the rows *)

(** The non-empty values of a column as the specification has them: its
    cells that are present and not empty, in the order of the rows. *)
Definition non_empty_values (data : list row) (name : string) : list string :=
  flat_map
    (fun r =>
       match obj_get name r with
       | Some s => if String.eqb s "" then [] else [s]
       | None => []
       end)
    data.

(** The rows that have no cell of the column. *)
Definition short_rows (data : list row) (name : string) : list row :=
  filter (fun r => negb (obj_has name r)) data.

(** The number of values of the column that are read from
    [Object.prototype]: one for each row without a cell, when the column has
    the name of a member. *)
Definition inherited_count (data : list row) (name : string) : nat :=
  if is_member name then length (short_rows data name) else 0.

Lemma count_cons t u types :
  count t (u :: types) = (if String.eqb t u then 1 else 0) + count t types.
Proof. unfold count. simpl. now destruct (String.eqb t u). Qed.

(** The values the profiler collects for a column are its non-empty values
    and, for each row without a cell, the member of [Object.prototype] of the
    name of the column, when there is one; such a value classifies as
    text. *)
Lemma columnValues_count data name t :
  count_type t (columnValues data name)
  = count t (map (fun s => getValueType validDate (Str s))
               (non_empty_values data name))
    + (if String.eqb t "text" then inherited_count data name else 0).
Proof.
  unfold count_type, inherited_count.
  induction data as [|r data IH].
  - simpl. destruct (String.eqb t "text"), (is_member name); reflexivity.
  - unfold columnValues, non_empty_values, short_rows, row_get, obj_has in *.
    cbn [flat_map filter].
    destruct (obj_get name r) as [s|]; cbn [negb].
    + destruct (String.eqb s ""); cbn [app]; [exact IH|].
      cbn [map]. rewrite !count_cons, IH. lia.
    + destruct (is_member name); cbn [app map length] in *.
      * rewrite count_cons, IH. cbn [getValueType].
        destruct (String.eqb t "text"); lia.
      * exact IH.
Qed.

Lemma columnValues_total data name :
  length (columnValues data name)
  = length (non_empty_values data name) + inherited_count data name.
Proof.
  unfold inherited_count.
  induction data as [|r data IH].
  - simpl. now destruct (is_member name).
  - unfold columnValues, non_empty_values, short_rows, row_get, obj_has in *.
    cbn [flat_map filter].
    destruct (obj_get name r) as [s|]; cbn [negb].
    + destruct (String.eqb s ""); cbn [app]; [exact IH|].
      cbn [length]. rewrite IH. lia.
    + destruct (is_member name); cbn [app length] in *; [rewrite IH; lia|].
      exact IH.
Qed.

Lemma count_numeric values :
  count "numeric" (map (fun s => getValueType validDate (Str s)) values)
  = length (filter looks_numeric values).
Proof.
  induction values as [|s values IH]; [reflexivity|].
  cbn [map filter]. rewrite count_cons, IH.
  destruct (getValueType_cases s) as (Hn & _ & _).
  destruct (looks_numeric s) eqn:E.
  - rewrite (proj2 Hn eq_refl). reflexivity.
  - destruct (String.eqb_spec "numeric" (getValueType validDate (Str s)))
      as [H|_]; [|reflexivity].
    symmetry in H. apply Hn in H. discriminate.
Qed.

(** The type of a column is the type of more than half of the values the
    profiler collects, and text when there is no such type.  The values are
    counted from the rows: the non-empty cells of the column, each with its
    own type, and one text for each row without a cell when the column has
    the name of a member of [Object.prototype]. *)
Theorem columnInfo_majority (data : list row) (name : string) :
  let values := non_empty_values data name in
  let total := length values + inherited_count data name in
  let count_of := fun t =>
    count t (map (fun s => getValueType validDate (Str s)) values)
    + (if String.eqb t "text" then inherited_count data name else 0) in
  (forall t, total < 2 * count_of t ->
             type (columnInfo validDate data name) = t)
  /\ ((forall t, 2 * count_of t <= total) ->
      type (columnInfo validDate data name) = "text").
Proof.
  cbv zeta. cbn [type columnInfo]. split.
  - intros t H. apply inferType_majority.
    now rewrite columnValues_total, columnValues_count.
  - intros H. apply inferType_no_majority. intros t.
    rewrite columnValues_total, columnValues_count. apply H.
Qed.

(** C5.  The column [constructor] has the one non-empty value ["5"], which
    is numeric, and the profiler types the column as text: in the second row,
    which has no cell of this column, it reads the member [constructor] of
    [Object.prototype], which is neither [undefined] nor empty, and counts it
    as a second value, a text. *)
Theorem inherited_member_counted (validDate' : string -> bool) :
  let data := [[("year", "2020"); ("constructor", "5")]; [("year", "")]] in
  non_empty_values data "constructor" = ["5"]
  /\ getValueType validDate' (Str "5") = "numeric"
  /\ columnValues data "constructor" = [Str "5"; Inherited "constructor"]
  /\ type (columnInfo validDate' data "constructor") = "text".
Proof. cbv zeta. repeat split; vm_compute; reflexivity. Qed.

(** *** The range of a numeric column *)

Lemma min_step_cases lowest n :
  min_step lowest n = n \/
  (min_step lowest n = lowest /\ (n <? lowest)%float = false).
Proof.
  unfold min_step. destruct (_ && _)%bool; [now left|].
  destruct (n <? lowest)%float; [now left | now right].
Qed.

Lemma max_step_cases highest n :
  max_step highest n = n \/
  (max_step highest n = highest /\ (highest <? n)%float = false).
Proof.
  unfold max_step. destruct (_ && _)%bool; [now left|].
  destruct (highest <? n)%float; [now left | now right].
Qed.

Lemma fold_min_max l : forall lowest highest,
  Forall (fun n => isNaN n = false) l ->
  isNaN lowest = false -> isNaN highest = false ->
  (lowest <=? highest)%float = true ->
  (fold_left min_step l lowest <=? fold_left max_step l highest)%float = true.
Proof.
  induction l as [|n l IH]; intros lowest highest Hl Hlo Hhi Hle; simpl;
    [assumption|].
  inversion Hl as [|? ? Hn Hl']; subst. unfold isNaN in *.
  destruct (min_step_cases lowest n) as [->|[-> Hmin]],
           (max_step_cases highest n) as [->|[-> Hmax]];
    apply IH; auto.
  - now apply FloatFacts.leb_refl.
  - now apply FloatFacts.ltb_false_leb.
  - now apply FloatFacts.ltb_false_leb.
Qed.

Lemma below_infinity n :
  isNaN n = false -> (n <? infinity)%float = false ->
  (neg_infinity <? n)%float = true.
Proof.
  unfold isNaN. rewrite FloatFacts.is_nan_Prim2SF, !ltb_spec.
  change (Prim2SF infinity) with (S754_infinity false).
  change (Prim2SF neg_infinity) with (S754_infinity true).
  unfold SFltb.
  destruct (Prim2SF n) as [s|s| |s m e]; try destruct s; simpl;
    intros H1 H2; congruence.
Qed.

(** [Math.min(...l) <= Math.max(...l)] for numbers none of which is [NaN],
    when there is one at least. *)
Lemma Math_min_le_max l :
  l <> [] -> Forall (fun n => isNaN n = false) l ->
  (Math_min l <=? Math_max l)%float = true.
Proof.
  intros Hne Hl. unfold Math_min, Math_max.
  assert (E : existsb isNaN l = false).
  { apply not_true_is_false. intros H. apply existsb_exists in H.
    destruct H as (n & Hin & Hn). rewrite Forall_forall in Hl.
    rewrite (Hl n Hin) in Hn. discriminate. }
  rewrite E. destruct l as [|n l]; [congruence|]. simpl.
  inversion Hl as [|? ? Hn Hl']; subst. unfold isNaN in *.
  destruct (min_step_cases infinity n) as [->|[-> Hmin]],
           (max_step_cases neg_infinity n) as [->|[-> Hmax]];
    apply fold_min_max; auto.
  - now apply FloatFacts.leb_refl.
  - now apply FloatFacts.ltb_false_leb.
  - now apply FloatFacts.ltb_false_leb.
  - rewrite (below_infinity n Hn Hmin) in Hmax. discriminate.
Qed.

Lemma nums_not_nan values :
  Forall (fun n => isNaN n = false) (nums validDate values).
Proof.
  unfold nums. apply Forall_forall. intros n Hin.
  apply in_map_iff in Hin. destruct Hin as (v & <- & Hv).
  apply filter_In in Hv. destruct Hv as [_ Hv]. apply String.eqb_eq in Hv.
  apply getValueType_numeric in Hv. destruct Hv as (s & -> & Hv).
  unfold looks_numeric in Hv.
  apply andb_prop in Hv. destruct Hv as [Hv _].
  apply andb_prop in Hv. destruct Hv as [Hv _].
  now apply negb_true_iff in Hv.
Qed.

Lemma nums_nonempty values :
  nums validDate values <> [] <->
  exists v, In v values /\ getValueType validDate v = "numeric".
Proof.
  unfold nums. split.
  - intros H.
    destruct (filter (fun v => getValueType validDate v =? "numeric") values)
      as [|v l] eqn:E; [contradiction|].
    assert (Hv : In v (v :: l)) by now left.
    rewrite <- E in Hv. apply filter_In in Hv. destruct Hv as [Hin Hv].
    apply String.eqb_eq in Hv. eauto.
  - intros (v & Hin & Hv) E. apply map_eq_nil in E.
    assert (H : In v (filter (fun v => getValueType validDate v =? "numeric") values)).
    { apply filter_In. split; [assumption|]. now apply String.eqb_eq. }
    rewrite E in H. contradiction.
Qed.

(** C6, as the code has it.  A column more than half of whose non-empty
    values parse as numbers is a numeric column, when no value of it is read
    from [Object.prototype]: when its name is the name of no member, or every
    row has a cell of it.  And whenever a column has both a [min] and a
    [max], the [min] is at most the [max]. *)
Theorem columnInfo_numeric_majority (data : list row) (name : string) :
  let values := non_empty_values data name in
  let info := columnInfo validDate data name in
  (inherited_count data name = 0 ->
   length values < 2 * length (filter looks_numeric values) ->
   type info = "numeric")
  /\ (forall lo hi, min info = Some lo -> max info = Some hi ->
                    (lo <=? hi)%float = true).
Proof.
  cbv zeta. split.
  - intros H0 H. cbn [type columnInfo]. apply inferType_majority.
    rewrite columnValues_total, columnValues_count, H0, count_numeric.
    cbn [String.eqb Ascii.eqb Bool.eqb]. lia.
  - intros lo hi. unfold columnInfo. cbn [min max].
    destruct (inferType validDate (columnValues data name) =? "numeric");
      [|discriminate].
    pose proof (nums_not_nan (columnValues data name)) as Hn.
    destruct (nums validDate (columnValues data name)) as [|n l] eqn:E;
      [discriminate|].
    cbn [fst snd]. intros [= <-] [= <-].
    apply Math_min_le_max; [discriminate | assumption].
Qed.

(** C7.  A column has a [min] exactly when it is numeric and one of its
    values classifies as numeric, and so for [max]; they are then the least
    and the greatest of the numbers read from the values that classify as
    numeric, and from no other value. *)
Theorem columnInfo_range (data : list row) (name : string) :
  let values := columnValues data name in
  let info := columnInfo validDate data name in
  let numeric_values :=
    filter (fun v => String.eqb (getValueType validDate v) "numeric") values in
  (min info <> None <->
   type info = "numeric" /\
   exists v, In v values /\ getValueType validDate v = "numeric")
  /\ (max info <> None <->
      type info = "numeric" /\
      exists v, In v values /\ getValueType validDate v = "numeric")
  /\ (min info <> None ->
      min info = Some (Math_min (map parseFloat numeric_values)))
  /\ (max info <> None ->
      max info = Some (Math_max (map parseFloat numeric_values))).
Proof.
  cbv zeta. unfold columnInfo. cbn [min max type].
  pose proof (nums_nonempty (columnValues data name)) as Hne.
  fold (nums validDate (columnValues data name)).
  destruct (String.eqb_spec (inferType validDate (columnValues data name)) "numeric")
    as [Ht|Ht].
  - destruct (nums validDate (columnValues data name)) as [|n l] eqn:E;
      cbn [fst snd].
    + repeat split; try congruence; intros [_ H]; apply Hne in H; congruence.
    + assert (Hex : exists v, In v (columnValues data name) /\
                              getValueType validDate v = "numeric")
        by (apply Hne; discriminate).
      repeat split; auto; discriminate.
  - cbn [fst snd]. repeat split; try congruence; intros [H _]; congruence.
Qed.

End Column.

(** Half of the non-empty values of the column [a] parse as numbers, none of
    its values is read from [Object.prototype], and the column is a text
    column, whatever the engine takes for a date. *)
Lemma half_numeric_is_text :
  (forall validDate' : string -> bool,
     let data := [[("a", "1")]; [("a", "abc")]] in
     let values := non_empty_values data "a" in
     inherited_count data "a" = 0
     /\ length values <= 2 * length (filter looks_numeric values)
     /\ type (columnInfo validDate' data "a") = "text")
  /\ "text" <> "numeric".
Proof.
  split; [|discriminate]. intros vd. cbv zeta.
  split; [reflexivity|]. split; [vm_compute; lia|].
  assert (E1 : getValueType vd (Str "1") = "numeric") by (vm_compute; reflexivity).
  assert (E2 : getValueType vd (Str "abc")
               = if vd "abc" then "date" else "text").
  { unfold getValueType.
    replace (negb (isNaN (parseFloat_string "abc"))) with false
      by (vm_compute; reflexivity).
    replace (negb (trim "abc" =? "")) with true by (vm_compute; reflexivity).
    cbn [andb]. now rewrite andb_true_r. }
  unfold columnInfo, inferType.
  change (columnValues [[("a", "1")]; [("a", "abc")]] "a")
    with [Str "1"; Str "abc"].
  cbn [map type]. rewrite E1, E2.
  destruct (vd "abc"); vm_compute; reflexivity.
Qed.

End ProfilerFacts.

Lemma option_map_id {A : Type} (o : option A) : option_map (fun a => a) o = o.
Proof. now destruct o. Qed.

Lemma option_map_map {A : Type} (f g : A -> A) (o : option A) :
  option_map g (option_map f o) = option_map (fun a => g (f a)) o.
Proof. now destruct o. Qed.

(** ** Strings *)

Lemma length_append (a b : string) :
  String.length (a ++ b) = String.length a + String.length b.
Proof. induction a as [|c a IH]; simpl; [reflexivity | now rewrite IH]. Qed.

Lemma append_inj_l (a b s : string) : (a ++ s = b ++ s)%string -> a = b.
Proof.
  revert b. induction a as [|c a IH]; intros [|d b] H; simpl in H.
  - reflexivity.
  - apply (f_equal String.length) in H. simpl in H.
    rewrite length_append in H. lia.
  - apply (f_equal String.length) in H. simpl in H.
    rewrite length_append in H. lia.
  - inversion H. f_equal. now apply IH.
Qed.

(** ** Sets of cells *)

Lemma cell_eqb_eq a b : cell_eqb a b = true <-> a = b.
Proof.
  destruct a as [s| |m], b as [t| |n]; simpl; try (split; congruence);
    rewrite String.eqb_eq; split; congruence.
Qed.

Section UniqueFacts.

Context {A : Type}.
Variable eqb : A -> A -> bool.
Hypothesis eqb_eq : forall a b, eqb a b = true <-> a = b.

Lemma existsb_eqb a l : existsb (eqb a) l = true <-> In a l.
Proof.
  rewrite existsb_exists. split.
  - intros (b & Hin & E). apply eqb_eq in E. now subst.
  - intros H. exists a. split; [assumption | now apply eqb_eq].
Qed.

Lemma set_add_In a c seen : In a (set_add eqb seen c) <-> In a seen \/ a = c.
Proof.
  unfold set_add. destruct (existsb (eqb c) seen) eqn:E.
  - apply existsb_eqb in E. split; [auto | intros [H| ->]; assumption].
  - rewrite in_app_iff. simpl. intuition congruence.
Qed.

Lemma set_add_NoDup c seen : NoDup seen -> NoDup (set_add eqb seen c).
Proof.
  intros H. unfold set_add. destruct (existsb (eqb c) seen) eqn:E; [assumption|].
  apply NoDup_app; [assumption | repeat constructor; auto |].
  intros a Ha [<-|[]]. apply existsb_eqb in Ha. congruence.
Qed.

Lemma unique_from l : forall seen a,
  In a (fold_left (set_add eqb) l seen) <-> In a seen \/ In a l.
Proof.
  induction l as [|c l IH]; intros seen a; simpl; [tauto|].
  rewrite IH, set_add_In. intuition congruence.
Qed.

(** [[...new Set(l)]] has the elements of [l], each once. *)
Lemma unique_In a l : In a (unique eqb l) <-> In a l.
Proof. unfold unique. rewrite unique_from. simpl. tauto. Qed.

Lemma unique_NoDup l : NoDup (unique eqb l).
Proof.
  unfold unique. assert (H : NoDup ([] : list A)) by constructor.
  revert H. generalize ([] : list A).
  induction l as [|c l IH]; intros seen H; simpl; [assumption|].
  apply IH. now apply set_add_NoDup.
Qed.

End UniqueFacts.

(** ** Grouped series *)

Module GroupedFacts.

Import Transformer.

Lemma field_assign (o : record) k k' v :
  k' <> "__proto__" ->
  field (obj_assign k v o) k' = if String.eqb k k' then v else field o k'.
Proof.
  intros H. destruct (String.eqb_spec k k') as [->|Hne].
  - rewrite obj_assign_set by assumption. now rewrite field_set, String.eqb_refl.
  - now apply field_assign_other.
Qed.

Lemma inherited_count_key g : inherited_value (count_key g) = VUndef.
Proof. unfold inherited_value, count_key. now rewrite is_member_count. Qed.

Section Grouped.

Variable numberToString : number -> string.

Variables (data : list row) (x y groupBy : string).

(** The keys under which a row is accumulated. *)
Definition xKey (r : row) : string := key_of (row_get x r).
Definition groupKey (r : row) : string := key_of (row_get groupBy r).

(** The property keys of the x values and of the groups of the rows. *)
Definition x_keys : list string := map key_of (uniqueX data x).
Definition group_keys : list string := map key_of (uniqueGroups data groupBy).

Lemma xKey_In r : In r data -> In (xKey r) x_keys.
Proof.
  intros H. unfold x_keys, xKey, uniqueX. apply in_map, sort_In.
  apply (unique_In cell_eqb cell_eqb_eq). now apply in_map.
Qed.

Lemma groupKey_In r : In r data -> In (groupKey r) group_keys.
Proof.
  intros H. unfold group_keys, groupKey, uniqueGroups. apply in_map.
  apply (unique_In cell_eqb cell_eqb_eq). now apply in_map.
Qed.

Lemma x_keys_In xk : In xk x_keys -> exists r, In r data /\ xKey r = xk.
Proof.
  unfold x_keys, uniqueX. intros H. apply in_map_iff in H.
  destruct H as (c & <- & Hc). apply (proj1 (sort_In _ _ _)) in Hc.
  apply (proj1 (unique_In cell_eqb cell_eqb_eq _ _)) in Hc.
  apply in_map_iff in Hc. destruct Hc as (r & <- & Hr). eauto.
Qed.

(** *** The initial records *)

Lemma seed_item_field groups xVal k :
  k <> "__proto__" ->
  field (seed_item groups x xVal) k =
  if existsb (String.eqb k) (map key_of groups) then VNum 0%float
  else field [(x, cell_value xVal)] k.
Proof.
  intros Hk. unfold seed_item. generalize ([(x, cell_value xVal)] : record).
  induction groups as [|g groups IH]; intros item; simpl; [reflexivity|].
  rewrite IH, field_assign by assumption. rewrite (String.eqb_sym k (key_of g)).
  destruct (existsb (String.eqb k) (map key_of groups)); [now rewrite orb_true_r|].
  rewrite orb_false_r. reflexivity.
Qed.

Lemma seed_groups_get groups k k' : forall gd : object record,
  obj_get k'
    (fold_left
       (fun gd group =>
          obj_update k (obj_assign (key_of group) (VNum 0%float)) gd)
       groups gd) =
  if String.eqb k k' then
    option_map
      (fold_left
         (fun item group => obj_assign (key_of group) (VNum 0%float) item)
         groups)
      (obj_get k gd)
  else obj_get k' gd.
Proof.
  induction groups as [|g groups IH]; intros gd; simpl.
  - destruct (String.eqb_spec k k') as [->|]; [|reflexivity].
    symmetry. apply option_map_id.
  - rewrite IH, !obj_get_update, String.eqb_refl.
    destruct (String.eqb k k'); [|reflexivity].
    now destruct (obj_get k gd).
Qed.

(** One turn of the loop over the x values. *)
Definition seed_step (groups : list cell) (gd : object record) (xVal : cell)
  : object record :=
  fold_left
    (fun gd group =>
       obj_update (key_of xVal) (obj_assign (key_of group) (VNum 0%float)) gd)
    groups (obj_assign (key_of xVal) [(x, cell_value xVal)] gd).

Lemma seed_step_get groups gd xVal k :
  k <> "__proto__" ->
  obj_get k (seed_step groups gd xVal) =
  if String.eqb (key_of xVal) k then Some (seed_item groups x xVal)
  else obj_get k gd.
Proof.
  intros Hk. unfold seed_step. rewrite seed_groups_get.
  destruct (String.eqb_spec (key_of xVal) k) as [E|Hne].
  - rewrite obj_assign_set by congruence.
    now rewrite obj_get_set, String.eqb_refl.
  - now apply obj_get_assign_other.
Qed.

Lemma seed_step_has groups gd xVal k :
  obj_has k (seed_step groups gd xVal)
  = obj_has k (obj_assign (key_of xVal) [(x, cell_value xVal)] gd).
Proof.
  unfold seed_step.
  generalize (obj_assign (key_of xVal) [(x, cell_value xVal)] gd).
  induction groups as [|g groups IH]; intros gd'; simpl; [reflexivity|].
  now rewrite IH, obj_has_update.
Qed.

Lemma seed_from_get groups xk xs : forall l gd,
  xk <> "__proto__" -> incl l xs ->
  (forall item, obj_get xk gd = Some item ->
     exists xVal, In xVal xs /\ key_of xVal = xk /\
                  item = seed_item groups x xVal) ->
  forall item, obj_get xk (fold_left (seed_step groups) l gd) = Some item ->
     exists xVal, In xVal xs /\ key_of xVal = xk /\
                  item = seed_item groups x xVal.
Proof.
  induction l as [|xVal l IH]; intros gd Hk Hl Hgd item; simpl; [apply Hgd|].
  apply IH; [assumption | intros a Ha; apply Hl; now right|].
  intros item'. rewrite seed_step_get by assumption.
  destruct (String.eqb_spec (key_of xVal) xk).
  - intros [= <-]. exists xVal. repeat split; auto. apply Hl. now left.
  - apply Hgd.
Qed.

(** Every record of the initial [groupedData] is the initial record of an
    x value, filed under the key of that x value. *)
Lemma seed_get xs groups xk item :
  xk <> "__proto__" ->
  obj_get xk (seed xs groups x) = Some item ->
  exists xVal, In xVal xs /\ key_of xVal = xk /\
               item = seed_item groups x xVal.
Proof.
  intros Hk.
  change (seed xs groups x) with (fold_left (seed_step groups) xs []).
  apply seed_from_get; [assumption | apply incl_refl | discriminate].
Qed.

Lemma seed_from_has groups xk : forall l gd,
  xk <> "__proto__" ->
  In xk (map key_of l) \/ obj_has xk gd = true ->
  obj_has xk (fold_left (seed_step groups) l gd) = true.
Proof.
  induction l as [|xVal l IH]; intros gd Hk H; simpl.
  - destruct H as [[]|H]. exact H.
  - apply IH; [assumption|]. unfold obj_has.
    rewrite seed_step_get by assumption.
    destruct (String.eqb_spec (key_of xVal) xk); [now right|].
    destruct H as [[E|H]|H]; [congruence | now left | now right].
Qed.

Lemma seed_has xs groups xk :
  xk <> "__proto__" ->
  In xk (map key_of xs) -> obj_has xk (seed xs groups x) = true.
Proof.
  intros Hk H.
  change (seed xs groups x) with (fold_left (seed_step groups) xs []).
  apply seed_from_has; [assumption | now left].
Qed.

(** [groupedData] has no property [__proto__]. *)
Lemma seed_no_proto xs groups : obj_has "__proto__" (seed xs groups x) = false.
Proof.
  change (seed xs groups x) with (fold_left (seed_step groups) xs []).
  assert (H : obj_has "__proto__" ([] : object record) = false) by reflexivity.
  revert H. generalize ([] : object record).
  induction xs as [|xVal xs IH]; intros gd H; simpl; [assumption|].
  apply IH. now rewrite seed_step_has, obj_has_assign_proto.
Qed.

(** *** The accumulation loop *)

(** What the loop does to the record of one x value: the rows of the other
    x values leave it as it is. *)
Definition accumulate_item (transform xk : string) (item : record) (r : row)
  : record :=
  if String.eqb (xKey r) xk then
    accumulate numberToString transform (groupKey r) (coerce (row_get y r)) item
  else item.

Lemma accumulate_row_get transform xk gd r :
  obj_get xk (accumulate_row numberToString x y groupBy transform gd r) =
  option_map (fun item => accumulate_item transform xk item r) (obj_get xk gd).
Proof.
  unfold accumulate_row, accumulate_item. fold (xKey r) (groupKey r).
  destruct (obj_has (xKey r) gd) eqn:Hhas.
  - rewrite obj_get_update. destruct (String.eqb_spec (xKey r) xk); subst.
    + reflexivity.
    + now destruct (obj_get xk gd).
  - destruct (String.eqb_spec (xKey r) xk); subst.
    + apply obj_has_false in Hhas. now rewrite Hhas.
    + now destruct (obj_get xk gd).
Qed.

Lemma accumulate_rows_get transform xk rows : forall gd,
  obj_get xk
    (fold_left (accumulate_row numberToString x y groupBy transform) rows gd) =
  option_map (fun item => fold_left (accumulate_item transform xk) rows item)
    (obj_get xk gd).
Proof.
  induction rows as [|r rows IH]; intros gd; simpl.
  - now destruct (obj_get xk gd).
  - rewrite IH, accumulate_row_get. now destruct (obj_get xk gd).
Qed.

(** A turn of the loop changes the field of the group of the row and the
    field of its count, and no other. *)
Lemma accumulate_field_other transform g0 yv item k :
  k <> g0 -> k <> count_key g0 ->
  field (accumulate numberToString transform g0 yv item) k = field item k.
Proof.
  intros H1 H2. unfold accumulate.
  destruct (String.eqb transform "sum");
    [now rewrite field_assign_other by congruence|].
  destruct (String.eqb transform "average").
  - cbv zeta. destruct (negb (truthy (field item (count_key g0))));
      now rewrite !field_assign_other by congruence.
  - destruct (String.eqb transform "count");
      now rewrite field_assign_other by congruence.
Qed.

(** *** Averages *)

(** The rows of a cell, and their y values as the loop reads them. *)
Definition cell_rows (rows : list row) (xk gk : string) : list row :=
  filter (fun r => String.eqb (xKey r) xk && String.eqb (groupKey r) gk) rows.

Definition cell_values (rows : list row) (xk gk : string) : list number :=
  map (fun r => coerce (row_get y r)) (cell_rows rows xk gk).

(** The running total and the running count of a cell: the additions the
    loop makes, in its order. *)
Definition total (ys : list number) : number :=
  fold_left (fun s v => (s + v)%float) ys 0%float.

Definition counted (ys : list number) : number :=
  fold_left (fun c _ => (c + 1)%float) ys 0%float.

(** The key of the count of a group is neither the key of a group nor the
    name of the x column. *)
Definition clean_keys : bool :=
  forallb
    (fun g =>
       negb (existsb (String.eqb (count_key g)) group_keys)
       && negb (String.eqb (count_key g) x))
    group_keys.

Lemma count_key_inj a b : count_key a = count_key b -> a = b.
Proof. apply append_inj_l. Qed.

Lemma count_key_neq g : count_key g <> g.
Proof.
  intros H. apply (f_equal String.length) in H. unfold count_key in H.
  rewrite length_append in H. simpl in H. lia.
Qed.

Lemma count_key_not_proto g : count_key g <> "__proto__".
Proof. apply not_proto_count. Qed.

Lemma clean_keys_count g g' :
  clean_keys = true -> In g group_keys -> In g' group_keys ->
  count_key g <> g' /\ count_key g <> x.
Proof.
  unfold clean_keys. intros H Hg Hg'.
  rewrite forallb_forall in H. specialize (H g Hg).
  apply andb_prop in H. destruct H as [H1 H2]. apply negb_true_iff in H1, H2.
  split.
  - intros E. assert (existsb (String.eqb (count_key g)) group_keys = true);
      [|congruence].
    apply existsb_exists. exists g'. split; [assumption | now apply String.eqb_eq].
  - intros E. apply String.eqb_eq in E. congruence.
Qed.

Lemma total_app ys v : total (ys ++ [v]) = (total ys + v)%float.
Proof. unfold total. now rewrite fold_left_app. Qed.

Lemma counted_app ys v : counted (ys ++ [v]) = (counted ys + 1)%float.
Proof. unfold counted. now rewrite fold_left_app. Qed.

Lemma counted_nonneg ys : (0 <=? counted ys)%float = true.
Proof.
  induction ys as [|v ys IH] using rev_ind; [reflexivity|].
  rewrite counted_app. now apply FloatFacts.ltb_leb, FloatFacts.add_one_pos.
Qed.

(** A count that is not of an empty cell is truthy: it is never reset. *)
Lemma counted_truthy ys : ys <> [] -> truthy_num (counted ys) = true.
Proof.
  destruct ys as [|v ys] using rev_ind; [congruence|]. intros _.
  rewrite counted_app. unfold truthy_num.
  rewrite FloatFacts.pos_truthy; [reflexivity|].
  apply FloatFacts.add_one_pos, counted_nonneg.
Qed.

Lemma cell_values_app rows r xk gk :
  cell_values (rows ++ [r]) xk gk =
  cell_values rows xk gk ++
  (if String.eqb (xKey r) xk && String.eqb (groupKey r) gk
   then [coerce (row_get y r)] else []).
Proof.
  unfold cell_values, cell_rows. rewrite filter_app, map_app. simpl.
  now destruct (_ && _)%bool.
Qed.

(** The fields of a record after one turn of the loop, for [average] and a
    group that is not [__proto__]. *)
Lemma accumulate_average_field g0 yv item k :
  g0 <> "__proto__" -> k <> "__proto__" ->
  field (accumulate numberToString "average" g0 yv item) k =
  if String.eqb (count_key g0) k then
    js_add numberToString
      (if truthy (field item (count_key g0)) then field item (count_key g0)
       else VNum 0%float) 1%float
  else if String.eqb g0 k then
    js_add numberToString
      (if truthy (field item (count_key g0)) then field item g0
       else VNum 0%float) yv
  else field item k.
Proof.
  intros Hg Hk. pose proof (count_key_neq g0) as Hne.
  pose proof (count_key_not_proto g0) as Hc.
  unfold accumulate. cbn [String.eqb Ascii.eqb Bool.eqb].
  destruct (truthy (field item (count_key g0))); cbn [negb];
    rewrite !field_assign, ?String.eqb_refl by assumption;
    repeat match goal with
      | |- context [String.eqb ?a ?b] =>
          destruct (String.eqb_spec a b); subst; try congruence
      end.
Qed.

(** The state of the record of the x value [xk] when the loop has gone over
    [rows]: every group holds the running total of its cell, and the count
    of a cell is there once a row of the cell has been met. *)
Definition cell_state (item : record) (rows : list row) (xk : string) : Prop :=
  forall g, In g group_keys -> g <> "__proto__" ->
    field item g = VNum (total (cell_values rows xk g)) /\
    field item (count_key g) =
    match cell_values rows xk g with
    | [] => VUndef
    | ys => VNum (counted ys)
    end.

Lemma cell_state_step item rows r xk :
  clean_keys = true -> In (groupKey r) group_keys ->
  cell_state item rows xk ->
  cell_state (accumulate_item "average" xk item r) (rows ++ [r]) xk.
Proof.
  intros Hclean Hr Hst g Hg Hp. rewrite cell_values_app.
  destruct (Hst g Hg Hp) as [Hv Hc].
  unfold accumulate_item.
  destruct (String.eqb_spec (xKey r) xk) as [Hx|Hx]; cbn [andb];
    [|rewrite app_nil_r; auto].
  destruct (String.eqb_spec (groupKey r) g) as [Hgr|Hgr].
  - rewrite !accumulate_average_field
      by (try apply count_key_not_proto; congruence).
    rewrite Hgr in *. clear Hgr.
    destruct (String.eqb_spec (count_key g) g) as [E|_];
      [now apply count_key_neq in E|].
    rewrite !String.eqb_refl.
    destruct (cell_values rows xk g) as [|v ys] eqn:Ev.
    + rewrite Hc. cbn [truthy app js_add]. split; reflexivity.
    + rewrite Hc, Hv. cbn [truthy].
      rewrite counted_truthy by discriminate. cbn [js_add].
      rewrite total_app. split; [reflexivity|].
      destruct ((v :: ys) ++ [coerce (row_get y r)]) eqn:El; [discriminate|].
      rewrite <- El. now rewrite counted_app.
  - rewrite app_nil_r.
    destruct (clean_keys_count (groupKey r) g Hclean Hr Hg) as [N1 _].
    destruct (clean_keys_count g (groupKey r) Hclean Hg Hr) as [N2 _].
    rewrite !accumulate_field_other; auto.
    intros E. apply count_key_inj in E. congruence.
Qed.

Lemma cell_state_rows item xk rest : forall rows,
  clean_keys = true -> (forall r, In r rest -> In (groupKey r) group_keys) ->
  cell_state item rows xk ->
  cell_state (fold_left (accumulate_item "average" xk) rest item)
    (rows ++ rest) xk.
Proof.
  revert item. induction rest as [|r rest IH]; intros item rows Hclean Hin Hst.
  - now rewrite app_nil_r.
  - simpl. replace (rows ++ r :: rest) with ((rows ++ [r]) ++ rest)
      by now rewrite <- app_assoc.
    apply IH; [assumption | intros; apply Hin; now right|].
    apply cell_state_step; [assumption | apply Hin; now left | assumption].
Qed.

Lemma cell_state_seed xVal xk :
  clean_keys = true ->
  cell_state (seed_item (uniqueGroups data groupBy) x xVal) [] xk.
Proof.
  intros Hclean g Hg Hp.
  rewrite !seed_item_field by (try apply count_key_not_proto; assumption).
  fold group_keys. split.
  - assert (E : existsb (String.eqb g) group_keys = true).
    { apply existsb_exists. exists g. split; [assumption | apply String.eqb_refl]. }
    now rewrite E.
  - assert (E : existsb (String.eqb (count_key g)) group_keys = false).
    { apply not_true_is_false. intros H. apply existsb_exists in H.
      destruct H as (g' & Hg' & E). apply String.eqb_eq in E.
      destruct (clean_keys_count g g' Hclean Hg Hg'). congruence. }
    rewrite E. unfold field. simpl.
    destruct (clean_keys_count g g Hclean Hg Hg) as [_ N].
    destruct (String.eqb_spec x (count_key g)); [congruence|].
    apply inherited_count_key.
Qed.

(** *** The division *)

Definition averaged (item : record) (g : string) : jsvalue :=
  VNum (ToNumber (field item g)
        / ToNumber (or_one (field item (count_key g))))%float.

Lemma average_group_field item g k :
  k <> "__proto__" ->
  field (average_group item g) k =
  if String.eqb (count_key (key_of g)) k then inherited_value k
  else if String.eqb (key_of g) k then averaged item (key_of g)
  else field item k.
Proof.
  intros Hk. unfold average_group. now rewrite field_delete, field_assign.
Qed.

Lemma average_group_get item g k :
  obj_get k (average_group item g) =
  if String.eqb (count_key (key_of g)) k then None
  else obj_get k (obj_assign (key_of g) (averaged item (key_of g)) item).
Proof.
  unfold average_group. now rewrite obj_get_delete.
Qed.

(** The division is made once for each group that has the key, by the count
    the first time and by 1 from then on, the count being deleted. *)
Lemma average_item_field groups : forall item g,
  clean_keys = true ->
  incl (map key_of groups) group_keys -> In g group_keys ->
  g <> "__proto__" ->
  field (average_item groups item) g =
  if existsb (String.eqb g) (map key_of groups) then averaged item g
  else field item g.
Proof.
  unfold average_item.
  induction groups as [|g1 groups IH]; intros item g Hclean Hincl Hg Hp;
    simpl; [reflexivity|].
  assert (Hg1 : In (key_of g1) group_keys) by (apply Hincl; now left).
  assert (Hincl' : incl (map key_of groups) group_keys)
    by (intros a Ha; apply Hincl; now right).
  pose proof (count_key_not_proto g) as Hcp.
  rewrite IH by assumption.
  destruct (clean_keys_count (key_of g1) g Hclean Hg1 Hg) as [N1 _].
  destruct (clean_keys_count g (key_of g1) Hclean Hg Hg1) as [N2 _].
  assert (Hf : field (average_group item g1) g
               = if String.eqb (key_of g1) g then averaged item g
                 else field item g).
  { rewrite average_group_field by assumption.
    destruct (String.eqb_spec (count_key (key_of g1)) g); [congruence|].
    destruct (String.eqb_spec (key_of g1) g); [now subst | reflexivity]. }
  assert (Hc : field (average_group item g1) (count_key g)
               = if String.eqb (key_of g1) g then VUndef
                 else field item (count_key g)).
  { rewrite average_group_field by assumption.
    destruct (String.eqb_spec (key_of g1) g) as [E|Hne].
    - rewrite E, String.eqb_refl. apply inherited_count_key.
    - destruct (String.eqb_spec (count_key (key_of g1)) (count_key g)) as [E|_];
        [apply count_key_inj in E; congruence|].
      destruct (String.eqb_spec (key_of g1) (count_key g)); [congruence|].
      reflexivity. }
  rewrite (String.eqb_sym g (key_of g1)).
  destruct (existsb (String.eqb g) (map key_of groups)) eqn:E.
  - rewrite orb_true_r. unfold averaged at 1. rewrite Hf, Hc.
    destruct (String.eqb (key_of g1) g); [|reflexivity].
    unfold averaged. cbn [or_one truthy ToNumber].
    now rewrite FloatDivision.div_one.
  - rewrite orb_false_r. exact Hf.
Qed.

Lemma average_item_keeps_none groups k : forall item,
  obj_get k item = None -> (forall g, In g groups -> key_of g <> k) ->
  obj_get k (average_item groups item) = None.
Proof.
  unfold average_item.
  induction groups as [|g1 groups IH]; intros item Hk Hne; simpl; [assumption|].
  apply IH; [|intros; apply Hne; now right].
  rewrite average_group_get.
  destruct (String.eqb (count_key (key_of g1)) k); [reflexivity|].
  rewrite obj_get_assign_other; [assumption|].
  apply (Hne g1). now left.
Qed.

(** The count of every group the post-processing goes over is deleted. *)
Lemma average_item_no_count groups : forall item g,
  clean_keys = true -> incl (map key_of groups) group_keys ->
  In g (map key_of groups) ->
  obj_has (count_key g) (average_item groups item) = false.
Proof.
  induction groups as [|g1 groups IH]; intros item g Hclean Hincl Hg;
    [contradiction|].
  assert (Hg1 : In (key_of g1) group_keys) by (apply Hincl; now left).
  assert (Hincl' : incl (map key_of groups) group_keys)
    by (intros a Ha; apply Hincl; now right).
  destruct (in_dec string_dec g (map key_of groups)) as [Hin|Hout].
  - apply (IH (average_group item g1)); assumption.
  - destruct Hg as [<-|Hg]; [|contradiction].
    apply obj_has_false.
    apply (average_item_keeps_none groups _ (average_group item g1)).
    + now rewrite average_group_get, String.eqb_refl.
    + intros g Hg E.
      assert (Hgk : In (key_of g) group_keys) by (apply Hincl'; now apply in_map).
      destruct (clean_keys_count (key_of g1) (key_of g) Hclean Hg1 Hgk).
      congruence.
Qed.

(** The record of an x value when [prepareGroupedData] returns, for
    [average]. *)
Lemma groupedData_average_get xk :
  In xk x_keys -> xk <> "__proto__" ->
  exists xVal,
    In xVal (uniqueX data x) /\ key_of xVal = xk /\
    obj_get xk (groupedData numberToString data x y groupBy "average") =
    Some (average_item (uniqueGroups data groupBy)
            (fold_left (accumulate_item "average" xk) data
               (seed_item (uniqueGroups data groupBy) x xVal))).
Proof.
  intros Hxk Hp. unfold groupedData. cbn [String.eqb Ascii.eqb Bool.eqb].
  rewrite obj_get_foreach, accumulate_rows_get.
  pose proof (seed_has (uniqueX data x) (uniqueGroups data groupBy) xk Hp Hxk)
    as Hhas.
  apply obj_has_true in Hhas. destruct Hhas as [item0 H0].
  destruct (seed_get _ _ _ _ Hp H0) as (xVal & Hin & Hk & ->).
  exists xVal. repeat split; auto. now rewrite H0.
Qed.

Lemma accumulated_state xVal xk :
  clean_keys = true ->
  cell_state
    (fold_left (accumulate_item "average" xk) data
       (seed_item (uniqueGroups data groupBy) x xVal)) data xk.
Proof.
  intros Hclean.
  apply (cell_state_rows _ xk data []); [assumption | |].
  - intros r Hr. now apply groupKey_In.
  - now apply cell_state_seed.
Qed.

(** C3, as the code has it.  When the keys are clean, then for [average] the
    value of every cell that has a row, and neither the x value nor the group
    of which is [__proto__], is the total of the y values of its rows divided
    by their count; and no record that is returned has the count of a group
    among its fields. *)
Theorem grouped_average :
  clean_keys = true ->
  (forall xk gk, xk <> "__proto__" -> gk <> "__proto__" ->
     cell_rows data xk gk <> [] ->
     exists item,
       obj_get xk (groupedData numberToString data x y groupBy "average")
       = Some item
       /\ In item (prepareGroupedData numberToString data x y groupBy "average")
       /\ field item gk
          = VNum (total (cell_values data xk gk)
                  / counted (cell_values data xk gk))%float)
  /\ (forall item g,
        In item (prepareGroupedData numberToString data x y groupBy "average") ->
        In g group_keys -> obj_has (count_key g) item = false).
Proof.
  intros Hclean. split.
  - intros xk gk Hxp Hgp Hrows.
    destruct (cell_rows data xk gk) as [|r rest] eqn:Er; [congruence|].
    assert (Hr : In r (cell_rows data xk gk)) by (rewrite Er; now left).
    apply filter_In in Hr. destruct Hr as [Hr Hkeys].
    apply andb_prop in Hkeys. destruct Hkeys as [Hx Hg].
    apply String.eqb_eq in Hx, Hg.
    assert (Hxk : In xk x_keys) by (rewrite <- Hx; now apply xKey_In).
    assert (Hgk : In gk group_keys) by (rewrite <- Hg; now apply groupKey_In).
    destruct (groupedData_average_get xk Hxk Hxp) as (xVal & _ & _ & Hget).
    eexists. split; [exact Hget|]. split.
    { unfold prepareGroupedData, obj_values.
      apply obj_get_In in Hget. now apply (in_map snd) in Hget. }
    rewrite average_item_field;
      [|assumption | apply incl_refl | assumption | assumption].
    assert (E : existsb (String.eqb gk) (map key_of (uniqueGroups data groupBy)) = true).
    { apply existsb_exists. exists gk. split; [assumption | apply String.eqb_refl]. }
    rewrite E. unfold averaged.
    destruct (accumulated_state xVal xk Hclean gk Hgk Hgp) as [Hv Hc].
    rewrite Hv, Hc.
    destruct (cell_values data xk gk) as [|v ys] eqn:Ev.
    { unfold cell_values in Ev. rewrite Er in Ev. discriminate. }
    unfold or_one. cbn [truthy]. rewrite counted_truthy by discriminate.
    reflexivity.
  - intros item g Hitem Hg.
    unfold prepareGroupedData, groupedData in Hitem.
    cbn [String.eqb Ascii.eqb Bool.eqb] in Hitem.
    rewrite obj_values_foreach in Hitem. apply in_map_iff in Hitem.
    destruct Hitem as (item1 & <- & _).
    apply average_item_no_count; [assumption | apply incl_refl | assumption].
Qed.

(** *** Cells without rows *)

(** With clean keys, a cell no row falls in holds 0 for [average], when
    neither its x value nor its group is [__proto__]: the division is by the
    fallback count 1. *)
Theorem grouped_average_empty (xk gk : string) :
  clean_keys = true -> In xk x_keys -> In gk group_keys ->
  xk <> "__proto__" -> gk <> "__proto__" ->
  cell_rows data xk gk = [] ->
  exists item,
    obj_get xk (groupedData numberToString data x y groupBy "average")
    = Some item
    /\ In item (prepareGroupedData numberToString data x y groupBy "average")
    /\ field item gk = VNum 0%float.
Proof.
  intros Hclean Hxk Hgk Hxp Hgp Hrows.
  destruct (groupedData_average_get xk Hxk Hxp) as (xVal & _ & _ & Hget).
  eexists. split; [exact Hget|]. split.
  { unfold prepareGroupedData, obj_values.
    apply obj_get_In in Hget. now apply (in_map snd) in Hget. }
  rewrite average_item_field;
    [|assumption | apply incl_refl | assumption | assumption].
  assert (E : existsb (String.eqb gk) (map key_of (uniqueGroups data groupBy)) = true).
  { apply existsb_exists. exists gk. split; [assumption | apply String.eqb_refl]. }
  rewrite E. unfold averaged.
  destruct (accumulated_state xVal xk Hclean gk Hgk Hgp) as [Hv Hc].
  rewrite Hv, Hc. unfold cell_values. rewrite Hrows. reflexivity.
Qed.

(** *** The other modes *)

(** What a cell holds for a mode other than [average]: the number of its
    rows for [count], the total of their y values otherwise. *)
Definition cell_total (transform : string) (ys : list number) : number :=
  if String.eqb transform "count" then counted ys else total ys.

Lemma accumulate_other_field transform g0 yv item k :
  transform <> "average" -> k <> "__proto__" ->
  field (accumulate numberToString transform g0 yv item) k =
  if String.eqb g0 k then
    js_add numberToString (field item g0)
      (if String.eqb transform "count" then 1%float else yv)
  else field item k.
Proof.
  intros Hne Hk. unfold accumulate.
  destruct (String.eqb_spec transform "sum") as [->|_];
    [now rewrite field_assign|].
  destruct (String.eqb_spec transform "average"); [contradiction|].
  destruct (String.eqb transform "count"); now rewrite field_assign.
Qed.

Definition total_state (transform : string) (item : record) (rows : list row)
    (xk : string) : Prop :=
  forall g, In g group_keys -> g <> "__proto__" ->
    field item g = VNum (cell_total transform (cell_values rows xk g)).

Lemma total_state_step transform item rows r xk :
  transform <> "average" ->
  total_state transform item rows xk ->
  total_state transform (accumulate_item transform xk item r) (rows ++ [r]) xk.
Proof.
  intros Hne Hst g Hg Hp. rewrite cell_values_app. specialize (Hst g Hg Hp).
  unfold accumulate_item.
  destruct (String.eqb_spec (xKey r) xk) as [Hx|Hx]; cbn [andb];
    [|now rewrite app_nil_r].
  rewrite accumulate_other_field by assumption.
  destruct (String.eqb_spec (groupKey r) g) as [->|_];
    [|now rewrite app_nil_r].
  rewrite Hst. unfold cell_total. cbn [js_add].
  destruct (String.eqb transform "count");
    [now rewrite counted_app | now rewrite total_app].
Qed.

Lemma total_state_rows transform xk rest : forall item rows,
  transform <> "average" ->
  total_state transform item rows xk ->
  total_state transform (fold_left (accumulate_item transform xk) rest item)
    (rows ++ rest) xk.
Proof.
  induction rest as [|r rest IH]; intros item rows Hne Hst.
  - now rewrite app_nil_r.
  - simpl. replace (rows ++ r :: rest) with ((rows ++ [r]) ++ rest)
      by now rewrite <- app_assoc.
    apply IH; [assumption|]. now apply total_state_step.
Qed.

Lemma groupedData_other_get transform xk :
  transform <> "average" -> In xk x_keys -> xk <> "__proto__" ->
  exists xVal,
    In xVal (uniqueX data x) /\ key_of xVal = xk /\
    obj_get xk (groupedData numberToString data x y groupBy transform) =
    Some (fold_left (accumulate_item transform xk) data
            (seed_item (uniqueGroups data groupBy) x xVal)).
Proof.
  intros Hne Hxk Hp. unfold groupedData.
  destruct (String.eqb_spec transform "average"); [contradiction|].
  rewrite accumulate_rows_get.
  pose proof (seed_has (uniqueX data x) (uniqueGroups data groupBy) xk Hp Hxk)
    as Hhas.
  apply obj_has_true in Hhas. destruct Hhas as [item0 H0].
  destruct (seed_get _ _ _ _ Hp H0) as (xVal & Hin & Hk & ->).
  exists xVal. repeat split; auto. now rewrite H0.
Qed.

(** For [sum], [count] and every mode that is not [average], the record of
    an x value that is not [__proto__] has a number for each group that is
    not [__proto__]: the number of the rows of the cell for [count], the
    total of their y values otherwise, and so 0 for a cell without rows. *)
Theorem grouped_totals (transform xk gk : string) :
  transform <> "average" -> In xk x_keys -> In gk group_keys ->
  xk <> "__proto__" -> gk <> "__proto__" ->
  exists item,
    obj_get xk (groupedData numberToString data x y groupBy transform)
    = Some item
    /\ In item (prepareGroupedData numberToString data x y groupBy transform)
    /\ field item gk
       = VNum (cell_total transform (cell_values data xk gk)).
Proof.
  intros Hne Hxk Hgk Hxp Hgp.
  destruct (groupedData_other_get transform xk Hne Hxk Hxp)
    as (xVal & _ & _ & Hget).
  eexists. split; [exact Hget|]. split.
  { unfold prepareGroupedData, obj_values.
    apply obj_get_In in Hget. now apply (in_map snd) in Hget. }
  apply (total_state_rows transform xk data _ [] Hne); [|assumption|assumption].
  intros g Hg Hp. rewrite seed_item_field by assumption. fold group_keys.
  assert (E : existsb (String.eqb g) group_keys = true).
  { apply existsb_exists. exists g. split; [assumption | apply String.eqb_refl]. }
  rewrite E. unfold cell_total, cell_values. simpl.
  now destruct (String.eqb transform "count").
Qed.

(** *** The number of records *)

Lemma seed_step_keys groups gd xVal :
  obj_keys (seed_step groups gd xVal) =
  obj_keys (obj_assign (key_of xVal) [(x, cell_value xVal)] gd).
Proof.
  unfold seed_step.
  generalize (obj_assign (key_of xVal) [(x, cell_value xVal)] gd).
  induction groups as [|g groups IH]; intros gd'; simpl; [reflexivity|].
  now rewrite IH, obj_keys_update.
Qed.

Lemma NoDup_obj_assign {A : Type} k (v : A) o :
  NoDup (obj_keys o) -> NoDup (obj_keys (obj_assign k v o)).
Proof.
  intros H. unfold obj_assign. destruct (_ && _)%bool; [assumption|].
  now apply NoDup_obj_set.
Qed.

Lemma seed_NoDup xs groups : NoDup (obj_keys (seed xs groups x)).
Proof.
  change (seed xs groups x) with (fold_left (seed_step groups) xs []).
  assert (H : NoDup (obj_keys ([] : object record))) by constructor.
  revert H. generalize ([] : object record).
  induction xs as [|xVal xs IH]; intros gd H; simpl; [assumption|].
  apply IH. rewrite seed_step_keys. now apply NoDup_obj_assign.
Qed.

Lemma accumulate_rows_keys transform rows : forall gd,
  obj_keys
    (fold_left (accumulate_row numberToString x y groupBy transform) rows gd)
  = obj_keys gd.
Proof.
  induction rows as [|r rows IH]; intros gd; simpl; [reflexivity|].
  rewrite IH. unfold accumulate_row.
  destruct (obj_has _ gd); [apply obj_keys_update | reflexivity].
Qed.

(** The keys of [groupedData] are the keys of the x values of the rows other
    than [__proto__], each once, whatever the mode. *)
Lemma groupedData_keys transform :
  NoDup (obj_keys (groupedData numberToString data x y groupBy transform))
  /\ forall k,
       In k (obj_keys (groupedData numberToString data x y groupBy transform))
       <-> In k (map xKey data) /\ k <> "__proto__".
Proof.
  assert (E : obj_keys (groupedData numberToString data x y groupBy transform)
              = obj_keys (seed (uniqueX data x) (uniqueGroups data groupBy) x)).
  { unfold groupedData. destruct (String.eqb transform "average");
      [rewrite obj_keys_foreach|]; apply accumulate_rows_keys. }
  rewrite E. split; [apply seed_NoDup|]. intros k.
  rewrite <- obj_has_keys. split.
  - intros H.
    assert (Hp : k <> "__proto__").
    { intros ->. rewrite seed_no_proto in H. discriminate. }
    split; [|assumption].
    apply obj_has_true in H. destruct H as [item H].
    destruct (seed_get _ _ _ _ Hp H) as (xVal & Hin & <- & _).
    unfold uniqueX in Hin. apply (proj1 (sort_In _ _ _)) in Hin.
    apply (proj1 (unique_In cell_eqb cell_eqb_eq _ _)) in Hin.
    apply in_map_iff in Hin. destruct Hin as (r & <- & Hr).
    apply in_map_iff. exists r. auto.
  - intros [H Hp]. apply in_map_iff in H. destruct H as (r & <- & Hr).
    apply seed_has; [assumption | now apply xKey_In].
Qed.

(** The x keys that get a record. *)
Definition record_keys : list string :=
  filter (fun k => negb (String.eqb k "__proto__")) (map xKey data).

Lemma record_keys_In k :
  In k record_keys <-> In k (map xKey data) /\ k <> "__proto__".
Proof.
  unfold record_keys. rewrite filter_In, negb_true_iff.
  now destruct (String.eqb_spec k "__proto__"); intuition congruence.
Qed.

(** [prepareGroupedData] returns one record for each distinct key of an x
    value other than [__proto__], whatever the mode. *)
Theorem grouped_length (transform : string) :
  length (prepareGroupedData numberToString data x y groupBy transform)
  = length (nodup string_dec record_keys).
Proof.
  destruct (groupedData_keys transform) as [Hnd Hin].
  unfold prepareGroupedData, obj_values. rewrite length_map.
  rewrite <- (length_map fst).
  apply Permutation_length, NoDup_Permutation.
  - exact Hnd.
  - apply NoDup_nodup.
  - intros k. rewrite nodup_In, record_keys_In. apply Hin.
Qed.

End Grouped.

(** *** Examples *)

(** The rows of the example of the specification. *)
Definition sales : list row :=
  [[("region", "east"); ("month", "Jan"); ("sales", "10")];
   [("region", "east"); ("month", "Feb"); ("sales", "20")];
   [("region", "west"); ("month", "Jan"); ("sales", "5")]].

(** Rows in which the key of the count of the region [a] is the key of
    another region. *)
Definition colliding : list row :=
  [[("month", "Jan"); ("region", "a"); ("sales", "1")];
   [("month", "Feb"); ("region", "a_count"); ("sales", "-5")]].

(** A stand-in for [String(n)], which none of the examples calls. *)
Definition no_string (n : number) : string := "".

Lemma grouped_average_witness :
  clean_keys sales "month" "region" = true
  /\ cell_rows "month" "region" sales "Jan" "east" <> []
  /\ exists item,
       obj_get "Jan" (groupedData no_string sales "month" "sales" "region" "average")
       = Some item
       /\ field item "east"
          = VNum (total (cell_values "month" "sales" "region" sales "Jan" "east")
                  / counted (cell_values "month" "sales" "region" sales "Jan" "east"))%float.
Proof.
  split; [reflexivity|]. split; [discriminate|].
  destruct (grouped_average no_string sales "month" "sales" "region" eq_refl)
    as [H _].
  destruct (H "Jan" "east" ltac:(discriminate) ltac:(discriminate)
              ltac:(discriminate)) as (item & Hget & _ & Hf).
  exists item. split; assumption.
Defined.

(** The claim of C3 fails on a cell without rows, where the code puts 0 and
    the quotient of the total by the count is [NaN]; and it fails on rows
    whose keys collide, where the code puts [NaN] in a cell whose only row
    gives the quotient -5. *)
Lemma grouped_average_counterexample :
  (cell_rows "month" "region" sales "Feb" "west" = []
   /\ (exists item,
         obj_get "Feb"
           (groupedData no_string sales "month" "sales" "region" "average")
         = Some item
         /\ field item "west" = VNum 0%float)
   /\ isNaN (total (cell_values "month" "sales" "region" sales "Feb" "west")
             / counted (cell_values "month" "sales" "region" sales "Feb" "west"))%float
      = true)
  /\
  (cell_values "month" "sales" "region" colliding "Feb" "a_count" = [(-5)%float]
   /\ (exists item,
         obj_get "Feb"
           (groupedData no_string colliding "month" "sales" "region" "average")
         = Some item
         /\ field item "a_count" = VNum nan)
   /\ (total (cell_values "month" "sales" "region" colliding "Feb" "a_count")
       / counted (cell_values "month" "sales" "region" colliding "Feb" "a_count")
       = -5)%float).
Proof.
  split; (split; [vm_compute; reflexivity|]);
    (split; [eexists; split; vm_compute; reflexivity | vm_compute; reflexivity]).
Qed.

(** C2.  The records of the x values ["9"] and ["10"] come in the order
    9, 10 of the array indices, not in the order ["10"], ["9"] of the
    strings. *)
Theorem grouped_index_keys_order (numberToString : number -> string) :
  prepareGroupedData numberToString
    [[("day", "9"); ("shop", "a"); ("sales", "1")];
     [("day", "10"); ("shop", "a"); ("sales", "2")]]
    "day" "sales" "shop" "sum"
  = [[("day", VStr "9"); ("a", VNum 1%float)];
     [("day", VStr "10"); ("a", VNum 2%float)]]
  /\ String.ltb "10" "9" = true.
Proof. split; vm_compute; reflexivity. Qed.

(** C10.  With the regions [a] and [a_count], the cell of January and
    [a_count], which no row falls in, holds [NaN]. *)
Theorem grouped_average_collision (numberToString : number -> string) :
  cell_rows "month" "region" colliding "Jan" "a_count" = []
  /\ prepareGroupedData numberToString colliding "month" "sales" "region" "average"
     = [[("month", VStr "Feb"); ("a", VNum (-0)%float); ("a_count", VNum nan)];
        [("month", VStr "Jan"); ("a", VNum 1%float); ("a_count", VNum nan)]].
Proof. split; vm_compute; reflexivity. Qed.

Lemma grouped_average_empty_witness :
  clean_keys sales "month" "region" = true
  /\ In "Feb" (x_keys sales "month")
  /\ In "west" (group_keys sales "region")
  /\ cell_rows "month" "region" sales "Feb" "west" = []
  /\ exists item,
       obj_get "Feb" (groupedData no_string sales "month" "sales" "region" "average")
       = Some item
       /\ field item "west" = VNum 0%float.
Proof.
  assert (Hx : In "Feb" (x_keys sales "month")) by (vm_compute; auto).
  assert (Hg : In "west" (group_keys sales "region")) by (vm_compute; auto).
  repeat split; try assumption; try reflexivity.
  destruct (grouped_average_empty no_string sales "month" "sales" "region"
              "Feb" "west" eq_refl Hx Hg ltac:(discriminate)
              ltac:(discriminate) eq_refl) as (item & Hget & _ & Hf).
  exists item. split; assumption.
Defined.

Lemma grouped_totals_witness :
  "sum" <> "average"
  /\ In "Feb" (x_keys sales "month")
  /\ In "east" (group_keys sales "region")
  /\ exists item,
       obj_get "Feb" (groupedData no_string sales "month" "sales" "region" "sum")
       = Some item
       /\ field item "east"
          = VNum (cell_total "sum"
                    (cell_values "month" "sales" "region" sales "Feb" "east")).
Proof.
  assert (Hx : In "Feb" (x_keys sales "month")) by (vm_compute; auto).
  assert (Hg : In "east" (group_keys sales "region")) by (vm_compute; auto).
  assert (Hne : "sum" <> "average") by discriminate.
  repeat split; try assumption.
  destruct (grouped_totals no_string sales "month" "sales" "region"
              "sum" "Feb" "east" Hne Hx Hg ltac:(discriminate)
              ltac:(discriminate)) as (item & Hget & _ & Hf).
  exists item. split; assumption.
Defined.

End GroupedFacts.

(** ** Pie *)

Module PieFacts.

Import Transformer.

Lemma not_member_not_proto k : is_member k = false -> k <> "__proto__".
Proof. intros H ->. discriminate. Qed.

Section Pie.

Variables (x y transform : string).

(** The category of a row: the key of its x cell. *)
Definition category (r : row) : string := key_of (row_get x r).

(** The y values of the rows of a category, as the loop reads them. *)
Definition category_values (rows : list row) (k : string) : list number :=
  map (fun r => coerce (row_get y r))
    (filter (fun r => String.eqb (category r) k) rows).

(** One turn of the loop on the accumulator of the category of the row. *)
Definition add_value (a : PieAcc) (v : number) : PieAcc :=
  if String.eqb transform "sum" then
    {| acc_value := (acc_value a + v)%float; acc_count := acc_count a |}
  else if String.eqb transform "average" then
    {| acc_value := (acc_value a + v)%float;
       acc_count := (acc_count a + 1)%float |}
  else if String.eqb transform "count" then
    {| acc_value := (acc_value a + 1)%float; acc_count := acc_count a |}
  else
    {| acc_value := (acc_value a + v)%float; acc_count := acc_count a |}.

Definition no_value : PieAcc := {| acc_value := 0%float; acc_count := 0%float |}.

Definition or_new (o : option PieAcc) : PieAcc :=
  match o with
  | Some a => a
  | None => no_value
  end.

(** The rows are read as they are: [Object.prototype] is given no property
    of the name of the x column.  It is given the properties [value] and
    [count] only, and only when a category is [__proto__]. *)
Definition steady (rows : list row) : Prop :=
  (x <> "value" /\ x <> "count")
  \/ Forall (fun r => category r <> "__proto__") rows.

Lemma steady_tail r rows : steady (r :: rows) -> steady rows.
Proof.
  intros [H|H]; [now left | right]. now inversion H.
Qed.

Lemma category_key_steady p r : ~ In x p -> category_key p x r = category r.
Proof.
  intros H. unfold category_key.
  assert (E : existsb (String.eqb x) p = false).
  { apply not_true_is_false. intros E. apply existsb_exists in E.
    destruct E as (n & Hn & E). apply String.eqb_eq in E. now subst. }
  now rewrite E, andb_false_r.
Qed.

Lemma aggregate_row_steady st r :
  ~ In x (polluted st) -> steady [r] ->
  ~ In x (polluted (aggregate_row x y transform st r)).
Proof.
  intros H Hs. unfold aggregate_row. rewrite (category_key_steady _ r H).
  fold (category r).
  destruct (obj_has (category r) (accumulators st)); [exact H|].
  destruct (is_member (category r)); [|exact H].
  destruct (String.eqb_spec (category r) "__proto__") as [E|_]; [|exact H].
  destruct Hs as [[H1 H2]|Hs].
  - cbn [polluted]. destruct (String.eqb transform "average");
      simpl; intuition congruence.
  - inversion Hs. contradiction.
Qed.

(** The accumulator of a category that is no member of [Object.prototype],
    after one turn of the loop. *)
Lemma aggregate_row_get st r k :
  ~ In x (polluted st) -> is_member k = false ->
  obj_get k (accumulators (aggregate_row x y transform st r)) =
  if String.eqb (category r) k
  then Some (add_value (or_new (obj_get k (accumulators st)))
               (coerce (row_get y r)))
  else obj_get k (accumulators st).
Proof.
  intros H Hk. unfold aggregate_row. rewrite (category_key_steady _ r H).
  fold (category r).
  destruct (String.eqb_spec (category r) k) as [->|Hne].
  - rewrite Hk. destruct (obj_has k (accumulators st)) eqn:Hhas;
      cbn [accumulators]; rewrite obj_get_update, String.eqb_refl.
    + apply obj_has_true in Hhas. destruct Hhas as [a Ha]. now rewrite Ha.
    + rewrite obj_assign_set by now apply not_member_not_proto.
      rewrite obj_get_set, String.eqb_refl. apply obj_has_false in Hhas.
      now rewrite Hhas.
  - destruct (obj_has (category r) (accumulators st)); cbn [accumulators].
    + rewrite obj_get_update. now destruct (String.eqb_spec (category r) k).
    + destruct (is_member (category r)).
      * now destruct (String.eqb (category r) "__proto__").
      * cbn [accumulators]. rewrite obj_get_update.
        destruct (String.eqb_spec (category r) k); [congruence|].
        now apply obj_get_assign_other.
Qed.

Lemma aggregate_rows_steady rows : forall st,
  ~ In x (polluted st) -> steady rows ->
  ~ In x (polluted (fold_left (aggregate_row x y transform) rows st)).
Proof.
  induction rows as [|r rows IH]; intros st H Hs; simpl; [assumption|].
  apply IH; [|now apply steady_tail in Hs].
  apply aggregate_row_steady; [assumption|].
  destruct Hs as [Hs|Hs]; [now left | right].
  inversion Hs. now constructor.
Qed.

Lemma aggregate_rows_get rows k : forall st,
  ~ In x (polluted st) -> steady rows -> is_member k = false ->
  obj_get k (accumulators (fold_left (aggregate_row x y transform) rows st)) =
  match category_values rows k with
  | [] => obj_get k (accumulators st)
  | ys => Some (fold_left add_value ys (or_new (obj_get k (accumulators st))))
  end.
Proof.
  unfold category_values.
  induction rows as [|r rows IH]; intros st H Hs Hk; simpl; [reflexivity|].
  rewrite IH;
    [| apply aggregate_row_steady; [assumption|];
       destruct Hs as [Hs|Hs]; [now left | right];
       inversion Hs; now constructor
     | now apply steady_tail in Hs
     | assumption].
  rewrite aggregate_row_get by assumption.
  destruct (String.eqb (category r) k); simpl; [|reflexivity].
  now destruct (map _ (filter _ rows)).
Qed.

(** A member of [Object.prototype] gets no accumulator. *)
Lemma aggregate_row_member st r k :
  is_member k = true -> obj_has k (accumulators st) = false ->
  obj_has k (accumulators (aggregate_row x y transform st r)) = false.
Proof.
  intros Hk H. unfold aggregate_row.
  set (c := category_key (polluted st) x r).
  destruct (obj_has c (accumulators st)) eqn:Hc; cbn [accumulators].
  - now rewrite obj_has_update.
  - destruct (is_member c) eqn:Hm.
    + now destruct (String.eqb c "__proto__").
    + cbn [accumulators]. rewrite obj_has_update.
      rewrite obj_has_assign_other; [assumption | congruence].
Qed.

Lemma aggregate_rows_member rows k : forall st,
  is_member k = true -> obj_has k (accumulators st) = false ->
  obj_has k (accumulators (fold_left (aggregate_row x y transform) rows st))
  = false.
Proof.
  induction rows as [|r rows IH]; intros st Hk H; simpl; [assumption|].
  apply IH; [assumption | now apply aggregate_row_member].
Qed.

Lemma aggregate_rows_NoDup rows : forall st,
  NoDup (obj_keys (accumulators st)) ->
  NoDup (obj_keys
           (accumulators (fold_left (aggregate_row x y transform) rows st))).
Proof.
  induction rows as [|r rows IH]; intros st H; simpl; [assumption|].
  apply IH. unfold aggregate_row.
  destruct (obj_has _ (accumulators st)); cbn [accumulators].
  - now rewrite obj_keys_update.
  - destruct (is_member _).
    + now destruct (String.eqb _ "__proto__").
    + cbn [accumulators]. rewrite obj_keys_update.
      now apply GroupedFacts.NoDup_obj_assign.
Qed.

(** Every turn of the loop makes one accumulator at most. *)
Lemma aggregate_rows_length rows : forall st,
  length (accumulators (fold_left (aggregate_row x y transform) rows st))
  <= length (accumulators st) + length rows.
Proof.
  induction rows as [|r rows IH]; intros st; simpl; [lia|].
  etransitivity; [apply IH|].
  assert (H : length (accumulators (aggregate_row x y transform st r))
              <= S (length (accumulators st))); [|lia].
  assert (Hu : forall k f (o : object PieAcc),
             length (obj_update k f o) = length o).
  { intros k f o. rewrite <- !(length_map fst).
    change (map fst (obj_update k f o)) with (obj_keys (obj_update k f o)).
    now rewrite obj_keys_update. }
  unfold aggregate_row.
  destruct (obj_has _ (accumulators st)); cbn [accumulators].
  - rewrite Hu. lia.
  - destruct (is_member _).
    + destruct (String.eqb _ "__proto__"); cbn [accumulators]; lia.
    + cbn [accumulators]. rewrite Hu. unfold obj_assign.
      destruct (_ && _)%bool; [lia|]. rewrite obj_set_length.
      destruct (obj_has _ _); lia.
Qed.





Lemma steady_In data :
  (x <> "value" /\ x <> "count") \/ ~ In "__proto__" (map category data) ->
  steady data.
Proof.
  intros [H|H]; [now left | right]. apply Forall_forall. intros r Hr E.
  apply H. rewrite <- E. now apply in_map.
Qed.

Lemma aggregated_get data k :
  steady data -> is_member k = false ->
  obj_get k (aggregated data x y transform) =
  match category_values data k with
  | [] => None
  | ys => Some (fold_left add_value ys no_value)
  end.
Proof.
  intros Hs Hk. unfold aggregated.
  rewrite aggregate_rows_get; [reflexivity | | assumption | assumption].
  cbn [polluted]. tauto.
Qed.

Lemma aggregated_member data k :
  is_member k = true -> obj_has k (aggregated data x y transform) = false.
Proof.
  intros Hk. unfold aggregated. now apply aggregate_rows_member.
Qed.

Lemma aggregated_NoDup data : NoDup (obj_keys (aggregated data x y transform)).
Proof. unfold aggregated. apply aggregate_rows_NoDup. constructor. Qed.


(** The comparator puts the greater value first. *)
Lemma preparePieData_Sorted data :
  Forall (fun e => isNaN (value e) = false) (preparePieData data x y transform) ->
  Sorted (fun a b => (value b <=? value a)%float = true)
    (preparePieData data x y transform).
Proof.
  intros H. unfold preparePieData in *.
  apply (sort_Sorted pie_after (fun e => isNaN (value e) = false)).
  - intros a b Ha Hb. unfold pie_after. rewrite FloatFacts.sub_pos.
    now apply FloatFacts.ltb_false_leb.
  - intros a b Ha Hb. unfold pie_after. rewrite FloatFacts.sub_pos.
    apply FloatFacts.ltb_leb.
  - eapply Permutation_Forall; [apply sort_perm | exact H].
Qed.

End Pie.



End PieFacts.

(** ** The order of binary64 numbers *)

Module FloatOrder.

Import FloatFacts.

Local Open Scope Z_scope.

(** A bound no finite number reaches, in units of [2^emin]. *)
Definition huge : Z := 2 ^ 3000.

(** The value of a number in units of [2^emin], the infinities beyond every
    finite number. *)
Definition val (x : spec_float) : Z :=
  match x with
  | S754_zero _ => 0
  | S754_infinity s => cond_Zopp s huge
  | S754_nan => 0
  | S754_finite s m e => cond_Zopp s (Zpos m * 2 ^ (e + 1074))
  end.

Lemma val_finite_bounds s m e :
  valid_binary (S754_finite s m e) = true ->
  0 < Zpos m * 2 ^ (e + 1074) < huge.
Proof.
  intros V. pose proof V as V'. apply valid_finite in V.
  destruct V as (He & Hd & _).
  cbn [SpecFloat.valid_binary] in V'. unfold bounded in V'.
  apply andb_prop in V'. destruct V' as [_ Hmax]. apply Z.leb_le in Hmax.
  unfold SpecFloat.emin, prec, emax in *.
  pose proof (digits2_pos_upper m) as U.
  assert (P : 0 < 2 ^ (e + 1074)) by (apply Z.pow_pos_nonneg; lia).
  split; [lia|].
  assert (Zpos m < 2 ^ 53).
  { pose proof (Z.pow_le_mono_r 2 (Zpos (digits2_pos m)) 53 ltac:(lia) Hd). lia. }
  assert (2 ^ (e + 1074) <= 2 ^ 2045) by (apply Z.pow_le_mono_r; lia).
  assert (E : huge = 2 ^ 53 * 2 ^ 2045 * 2 ^ 902)
    by (unfold huge; rewrite <- !Z.pow_add_r by lia; reflexivity).
  assert (0 < 2 ^ 902) by (apply Z.pow_pos_nonneg; lia).
  assert (0 < 2 ^ 2045) by (apply Z.pow_pos_nonneg; lia).
  assert (0 < 2 ^ 53) by (apply Z.pow_pos_nonneg; lia).
  rewrite E.
  assert (S1 : Zpos m * 2 ^ (e + 1074) <= Zpos m * 2 ^ 2045)
    by (apply Z.mul_le_mono_nonneg_l; lia).
  assert (S2 : Zpos m * 2 ^ 2045 < 2 ^ 53 * 2 ^ 2045)
    by (apply Z.mul_lt_mono_pos_r; lia).
  assert (S3 : 2 ^ 53 * 2 ^ 2045 * 1 <= 2 ^ 53 * 2 ^ 2045 * 2 ^ 902)
    by (apply Z.mul_le_mono_nonneg_l; [apply Z.mul_nonneg_nonneg|]; lia).
  rewrite Z.mul_1_r in S3. lia.
Qed.

Lemma huge_pos : 0 < huge.
Proof. unfold huge. apply Z.pow_pos_nonneg; lia. Qed.

Lemma val_aligned s m e ez :
  emin <= ez <= e ->
  val (S754_finite s m e) = aligned s m e ez * 2 ^ (ez + 1074).
Proof.
  intros H. unfold SpecFloat.emin, prec, emax in H. unfold aligned, val.
  rewrite shl_align_fst by lia.
  replace (e + 1074) with ((e - ez) + (ez + 1074)) by lia.
  rewrite Z.pow_add_r by lia. destruct s; cbn [cond_Zopp]; lia.
Qed.

Ltac compare_values :=
  f_equal; symmetry;
  first [ apply Z.compare_eq_iff; lia
        | apply Z.compare_lt_iff; lia
        | apply Z.compare_gt_iff; lia ].

(** Comparison is the comparison of the values. *)
Lemma SFcompare_val x y :
  valid_binary x = true -> valid_binary y = true ->
  x <> S754_nan -> y <> S754_nan ->
  SFcompare x y = Some (val x ?= val y).
Proof.
  intros Vx Vy Nx Ny. pose proof huge_pos as P.
  destruct x as [s|s| |s m e], y as [s'|s'| |s' m' e']; try congruence.
  - reflexivity.
  - destruct s'; cbn [SFcompare val cond_Zopp]; compare_values.
  - pose proof (val_finite_bounds _ _ _ Vy).
    destruct s'; cbn [SFcompare val cond_Zopp]; compare_values.
  - destruct s; cbn [SFcompare val cond_Zopp]; compare_values.
  - destruct s, s'; cbn [SFcompare val cond_Zopp]; compare_values.
  - pose proof (val_finite_bounds _ _ _ Vy).
    destruct s, s'; cbn [SFcompare val cond_Zopp]; compare_values.
  - pose proof (val_finite_bounds _ _ _ Vx).
    destruct s; cbn [SFcompare val cond_Zopp]; compare_values.
  - pose proof (val_finite_bounds _ _ _ Vx).
    destruct s, s'; cbn [SFcompare val cond_Zopp]; compare_values.
  - rewrite (aligned_compare _ _ _ _ _ _ Vx Vy).
    pose proof (valid_finite _ _ _ Vx) as (He & _).
    pose proof (valid_finite _ _ _ Vy) as (He' & _).
    rewrite (val_aligned s m e (Z.min e e')) by lia.
    rewrite (val_aligned s' m' e' (Z.min e e')) by lia.
    f_equal. apply Zmult_compare_compat_r.
    unfold SpecFloat.emin, prec, emax in *.
    apply Z.lt_gt, Z.pow_pos_nonneg; lia.
Qed.

Local Open Scope float_scope.

Lemma leb_val a b :
  (a <=? b) = true <->
  is_nan a = false /\ is_nan b = false /\ (val (Prim2SF a) <= val (Prim2SF b))%Z.
Proof.
  split.
  - intros H. destruct (leb_not_nan a b H) as [Na Nb].
    repeat split; try assumption.
    rewrite leb_spec in H. unfold SFleb in H.
    rewrite SFcompare_val in H
      by (try apply Prim2SF_valid; now apply is_nan_Prim2SF).
    destruct (Z.compare_spec (val (Prim2SF a)) (val (Prim2SF b)));
      first [lia | discriminate].
  - intros (Na & Nb & H). rewrite leb_spec. unfold SFleb.
    rewrite SFcompare_val
      by (try apply Prim2SF_valid; now apply is_nan_Prim2SF).
    destruct (Z.compare_spec (val (Prim2SF a)) (val (Prim2SF b)));
      first [reflexivity | lia].
Qed.

(** [<=] is transitive. *)
Lemma leb_trans a b c :
  (a <=? b) = true -> (b <=? c) = true -> (a <=? c) = true.
Proof.
  rewrite !leb_val. intros (Na & Nb & H1) (_ & Nc & H2).
  repeat split; try assumption. lia.
Qed.

End FloatOrder.

(** ** Plain and scatter series *)

Module SeriesFacts.

Import Transformer.

Lemma spread_from (r : row) : forall (acc : record) k,
  NoDup (obj_keys r) ->
  obj_get k (fold_left (fun o kv => obj_set (fst kv) (VStr (snd kv)) o) r acc) =
  match obj_get k r with
  | Some s => Some (VStr s)
  | None => obj_get k acc
  end.
Proof.
  induction r as [|[k0 s0] r IH]; intros acc k Hnd; simpl; [reflexivity|].
  inversion Hnd as [|? ? Hnotin Hnd']; subst. rewrite IH by assumption.
  rewrite obj_get_set.
  destruct (String.eqb_spec k0 k) as [->|Hne]; [|now destruct (obj_get k r)].
  destruct (obj_get k r) as [s|] eqn:E; [|reflexivity].
  exfalso. apply Hnotin. apply obj_get_In in E.
  now apply (in_map fst) in E.
Qed.

(** The copy of a row has the cells of the row. *)
Lemma field_spread (r : row) k :
  NoDup (obj_keys r) -> field (spread r) k = cell_value (row_get k r).
Proof.
  intros Hnd. unfold field, spread, row_get. rewrite spread_from by assumption.
  destruct (obj_get k r); [reflexivity|]. cbn [obj_get].
  unfold inherited_value. now destruct (is_member k).
Qed.

(** The plain strategy gives one record for each row, in the order of the
    rows: the row with the number [parseFloat(row[y]) || 0], which is never
    [NaN], in the place of its y cell, and its other cells as they are. *)
Theorem plain_data (data : list row) (y : string) :
  length (preparePlainData data y) = length data
  /\ forall i r, nth_error data i = Some r ->
       exists o,
         nth_error (preparePlainData data y) i = Some o
         /\ field o y = VNum (coerce (row_get y r))
         /\ isNaN (coerce (row_get y r)) = false
         /\ (NoDup (obj_keys r) ->
             forall k, k <> y -> field o k = cell_value (row_get k r)).
Proof.
  unfold preparePlainData. split; [apply length_map|].
  intros i r Hr. eexists. split; [rewrite nth_error_map, Hr; reflexivity|].
  split; [now rewrite field_set, String.eqb_refl|].
  split; [apply coerce_not_nan|].
  intros Hnd k Hk. rewrite field_set.
  destruct (String.eqb_spec y k); [congruence|]. now apply field_spread.
Qed.

(** The scatter strategy gives one record for each row as well, in the order
    of the rows: no row is left out.  The x and the y cells are replaced by
    numbers that are never [NaN], 0 standing for a cell that does not parse,
    and the other cells are as they are. *)
Theorem scatter_data (data : list row) (x y : string) :
  length (prepareScatterData data x y) = length data
  /\ forall i r, nth_error data i = Some r ->
       exists o,
         nth_error (prepareScatterData data x y) i = Some o
         /\ field o y = VNum (coerce (row_get y r))
         /\ (x <> y -> field o x = VNum (coerce (row_get x r)))
         /\ isNaN_value (field o x) = false
         /\ isNaN_value (field o y) = false
         /\ (NoDup (obj_keys r) ->
             forall k, k <> x -> k <> y -> field o k = cell_value (row_get k r)).
Proof.
  rewrite ScatterFacts.prepareScatterData_map. split; [apply length_map|].
  intros i r Hr. eexists. split; [rewrite nth_error_map, Hr; reflexivity|].
  rewrite !field_set, !String.eqb_refl.
  split; [reflexivity|]. split.
  { intros Hne. destruct (String.eqb_spec y x); [congruence | reflexivity]. }
  split.
  { destruct (String.eqb y x); unfold isNaN_value; cbn [ToNumber];
      apply coerce_not_nan. }
  split; [unfold isNaN_value; cbn [ToNumber]; apply coerce_not_nan|].
  intros Hnd k Hx Hy. rewrite !field_set.
  destruct (String.eqb_spec y k); [congruence|].
  destruct (String.eqb_spec x k); [congruence|]. now apply field_spread.
Qed.

End SeriesFacts.

(** ** The entries of a pie *)

Module PieEntries.

Import Transformer.
Import PieFacts.

(** The categories of the rows whose name is not the name of a member of
    [Object.prototype]. *)
Definition entry_categories (data : list row) (x : string) : list string :=
  filter (fun k => negb (is_member k)) (map (category x) data).

Lemma entry_categories_In data x k :
  In k (entry_categories data x)
  <-> In k (map (category x) data) /\ is_member k = false.
Proof.
  unfold entry_categories. now rewrite filter_In, negb_true_iff.
Qed.

Lemma aggregated_keys (data : list row) (x y transform k : string) :
  steady x data ->
  In k (obj_keys (aggregated data x y transform)) <->
  In k (map (category x) data) /\ is_member k = false.
Proof.
  intros Hs. rewrite <- obj_has_keys. destruct (is_member k) eqn:Hk.
  { rewrite aggregated_member by assumption.
    split; [discriminate | intros [_ H]; discriminate]. }
  unfold obj_has. rewrite aggregated_get by assumption.
  unfold category_values. split.
  - intros H. split; [|reflexivity].
    destruct (filter (fun r => String.eqb (category x r) k) data) as [|r l] eqn:E;
      [discriminate|].
    assert (Hr : In r (filter (fun r => String.eqb (category x r) k) data))
      by (rewrite E; now left).
    apply filter_In in Hr. destruct Hr as [Hr Hc]. apply String.eqb_eq in Hc.
    apply in_map_iff. eauto.
  - intros [H _]. apply in_map_iff in H. destruct H as (r & Hc & Hr).
    assert (Hf : In r (filter (fun r => String.eqb (category x r) k) data)).
    { apply filter_In. split; [assumption | now apply String.eqb_eq]. }
    destruct (filter (fun r => String.eqb (category x r) k) data);
      [contradiction | reflexivity].
Qed.

Lemma preparePieData_names (data : list row) (x y transform : string) :
  Permutation (map name (preparePieData data x y transform))
    (obj_keys (aggregated data x y transform)).
Proof.
  unfold preparePieData. rewrite (sort_perm pie_after).
  unfold obj_keys. rewrite map_map. reflexivity.
Qed.

(** No two entries of a pie have the same name.  When the rows are read as
    they are, a pie has one entry for each distinct category of the rows
    whose name is not the name of a member of [Object.prototype], and the
    names of the entries are these categories. *)
Theorem pie_entries (data : list row) (x y transform : string) :
  NoDup (map name (preparePieData data x y transform))
  /\ ((x <> "value" /\ x <> "count")
      \/ ~ In "__proto__" (map (category x) data) ->
      (forall k, In k (map name (preparePieData data x y transform)) <->
                 In k (map (category x) data) /\ is_member k = false)
      /\ length (preparePieData data x y transform)
         = length (nodup string_dec (entry_categories data x))).
Proof.
  pose proof (preparePieData_names data x y transform) as Hp.
  assert (Hnd : NoDup (map name (preparePieData data x y transform))).
  { eapply Permutation_NoDup; [symmetry; exact Hp|]. apply aggregated_NoDup. }
  split; [exact Hnd|]. intros Hs. apply steady_In in Hs.
  assert (Hin : forall k, In k (map name (preparePieData data x y transform)) <->
                          In k (map (category x) data) /\ is_member k = false).
  { intros k. rewrite <- (aggregated_keys data x y transform k Hs).
    split; apply Permutation_in; [|symmetry]; exact Hp. }
  split; [exact Hin|].
  rewrite <- (length_map name).
  apply Permutation_length, NoDup_Permutation;
    [assumption | apply NoDup_nodup|].
  intros k. rewrite nodup_In, entry_categories_In. apply Hin.
Qed.

(** When no value is [NaN], every entry of a pie has a value at least as
    great as the value of every entry after it: the greatest comes first. *)
Theorem pie_largest_first (data : list row) (x y transform : string) :
  Forall (fun e => isNaN (value e) = false) (preparePieData data x y transform) ->
  StronglySorted (fun a b => (value b <=? value a)%float = true)
    (preparePieData data x y transform).
Proof.
  intros H. apply Sorted_StronglySorted.
  - intros a b c Hab Hbc. exact (FloatOrder.leb_trans _ _ _ Hbc Hab).
  - now apply preparePieData_Sorted.
Qed.

Lemma pie_largest_first_witness :
  Forall (fun e => isNaN (value e) = false)
    (preparePieData GroupedFacts.sales "region" "sales" "sum")
  /\ StronglySorted (fun a b => (value b <=? value a)%float = true)
       (preparePieData GroupedFacts.sales "region" "sales" "sum").
Proof.
  assert (H : Forall (fun e => isNaN (value e) = false)
                (preparePieData GroupedFacts.sales "region" "sales" "sum"))
    by (vm_compute; repeat constructor).
  split; [exact H|].
  exact (pie_largest_first GroupedFacts.sales "region" "sales" "sum" H).
Defined.

End PieEntries.

(** ** More on the profiler *)

Module ProfilerMore.

Import Profiler.
Import ProfilerFacts.

(** *** The least and the greatest of a list of numbers *)

Lemma is_neg_zero_spec n : is_neg_zero n = true -> Prim2SF n = S754_zero true.
Proof.
  unfold is_neg_zero. rewrite classify_spec. unfold SF64classify, SFclassify.
  destruct (Prim2SF n) as [[]|[]| |[] m e]; try discriminate; try reflexivity;
    destruct (Z.eqb _ _); discriminate.
Qed.

Lemma is_pos_zero_spec n : is_pos_zero n = true -> Prim2SF n = S754_zero false.
Proof.
  unfold is_pos_zero. rewrite classify_spec. unfold SF64classify, SFclassify.
  destruct (Prim2SF n) as [[]|[]| |[] m e]; try discriminate; try reflexivity;
    destruct (Z.eqb _ _); discriminate.
Qed.

Lemma min_step_le lowest n :
  isNaN lowest = false -> isNaN n = false ->
  (min_step lowest n <=? lowest)%float = true
  /\ (min_step lowest n <=? n)%float = true.
Proof.
  unfold isNaN, min_step. intros Hl Hn.
  destruct (is_neg_zero n && is_pos_zero lowest)%bool eqn:Z.
  - apply andb_prop in Z. destruct Z as [Z1 Z2].
    split; [|now apply FloatFacts.leb_refl].
    rewrite leb_spec, (is_neg_zero_spec _ Z1), (is_pos_zero_spec _ Z2).
    reflexivity.
  - destruct (n <? lowest)%float eqn:L.
    + split; [now apply FloatFacts.ltb_leb | now apply FloatFacts.leb_refl].
    + split; [now apply FloatFacts.leb_refl | now apply FloatFacts.ltb_false_leb].
Qed.

Lemma max_step_ge highest n :
  isNaN highest = false -> isNaN n = false ->
  (highest <=? max_step highest n)%float = true
  /\ (n <=? max_step highest n)%float = true.
Proof.
  unfold isNaN, max_step. intros Hh Hn.
  destruct (is_pos_zero n && is_neg_zero highest)%bool eqn:Z.
  - apply andb_prop in Z. destruct Z as [Z1 Z2].
    split; [|now apply FloatFacts.leb_refl].
    rewrite leb_spec, (is_pos_zero_spec _ Z1), (is_neg_zero_spec _ Z2).
    reflexivity.
  - destruct (highest <? n)%float eqn:L.
    + split; [now apply FloatFacts.ltb_leb | now apply FloatFacts.leb_refl].
    + split; [now apply FloatFacts.leb_refl | now apply FloatFacts.ltb_false_leb].
Qed.

Lemma fold_min_lower l : forall lowest,
  Forall (fun n => isNaN n = false) l -> isNaN lowest = false ->
  (fold_left min_step l lowest <=? lowest)%float = true
  /\ forall n, In n l -> (fold_left min_step l lowest <=? n)%float = true.
Proof.
  induction l as [|m l IH]; intros lowest Hl Hlo; simpl.
  - split; [now apply FloatFacts.leb_refl | contradiction].
  - inversion Hl as [|? ? Hm Hl']; subst.
    destruct (min_step_le lowest m Hlo Hm) as [S1 S2].
    destruct (FloatFacts.leb_not_nan _ _ S1) as [Hs _].
    destruct (IH (min_step lowest m) Hl' Hs) as [I1 I2].
    split; [exact (FloatOrder.leb_trans _ _ _ I1 S1)|].
    intros n [<-|Hn]; [exact (FloatOrder.leb_trans _ _ _ I1 S2) | now apply I2].
Qed.

Lemma fold_max_upper l : forall highest,
  Forall (fun n => isNaN n = false) l -> isNaN highest = false ->
  (highest <=? fold_left max_step l highest)%float = true
  /\ forall n, In n l -> (n <=? fold_left max_step l highest)%float = true.
Proof.
  induction l as [|m l IH]; intros highest Hl Hhi; simpl.
  - split; [now apply FloatFacts.leb_refl | contradiction].
  - inversion Hl as [|? ? Hm Hl']; subst.
    destruct (max_step_ge highest m Hhi Hm) as [S1 S2].
    destruct (FloatFacts.leb_not_nan _ _ S1) as [_ Hs].
    destruct (IH (max_step highest m) Hl' Hs) as [I1 I2].
    split; [exact (FloatOrder.leb_trans _ _ _ S1 I1)|].
    intros n [<-|Hn]; [exact (FloatOrder.leb_trans _ _ _ S2 I1) | now apply I2].
Qed.

Lemma no_nan l :
  Forall (fun n => isNaN n = false) l -> existsb isNaN l = false.
Proof.
  intros Hl. apply not_true_is_false. intros H. apply existsb_exists in H.
  destruct H as (n & Hin & Hn). rewrite Forall_forall in Hl.
  rewrite (Hl n Hin) in Hn. discriminate.
Qed.

(** [Math.min(...l)] is below and [Math.max(...l)] above every number of a
    list [l] without [NaN]. *)
Lemma Math_min_max_bounds l n :
  Forall (fun n => isNaN n = false) l -> In n l ->
  (Math_min l <=? n)%float = true /\ (n <=? Math_max l)%float = true.
Proof.
  intros Hl Hn. unfold Math_min, Math_max. rewrite (no_nan l Hl). split.
  - now apply fold_min_lower.
  - now apply fold_max_upper.
Qed.

Section Column.

Variable validDate : string -> bool.

(** The [min] and the [max] of a column bound the numbers read from the
    values of the column that classify as numeric. *)
Theorem columnInfo_bounds (data : list row) (column : string) :
  forall lo hi v,
    min (columnInfo validDate data column) = Some lo ->
    max (columnInfo validDate data column) = Some hi ->
    In v (columnValues data column) ->
    getValueType validDate v = "numeric" ->
    (lo <=? parseFloat v)%float = true
    /\ (parseFloat v <=? hi)%float = true.
Proof.
  intros lo hi v. unfold columnInfo. cbn [min max].
  destruct (inferType validDate (columnValues data column) =? "numeric");
    [|discriminate].
  pose proof (nums_not_nan validDate (columnValues data column)) as Hn.
  destruct (nums validDate (columnValues data column)) as [|n l] eqn:E;
    [discriminate|].
  cbn [fst snd]. intros [= <-] [= <-] Hv Ht.
  apply Math_min_max_bounds; [assumption|].
  rewrite <- E. unfold nums.
  apply in_map. apply filter_In.
  split; [assumption | now apply String.eqb_eq].
Qed.

(** The type of a column is the type of more than half of its values, or
    it is text. *)
Lemma inferType_cases values t :
  inferType validDate values = t ->
  t = "text" \/ length values < 2 * count_type validDate t values.
Proof.
  unfold inferType, count_type.
  destruct values as [|v values]; [now left|].
  set (types := map (getValueType validDate) (v :: values)).
  assert (Hlen : length types = length (v :: values)) by apply length_map.
  destruct (sortedTypes types) as [|[t0 c0] rest] eqn:E; [now left|].
  apply sortedTypes_head in E. destruct E as (Hc & _ & _).
  unfold over_half. destruct (Nat.ltb_spec (length types) (2 * c0)).
  - intros <-. right. lia.
  - now left.
Qed.

Lemma count_type_pos t values :
  count_type validDate t values <> 0 ->
  exists v, In v values /\ getValueType validDate v = t.
Proof.
  unfold count_type, count. intros H.
  destruct (filter (String.eqb t) (map (getValueType validDate) values))
    as [|u l] eqn:E; [contradiction|].
  assert (Hu : In u (filter (String.eqb t) (map (getValueType validDate) values)))
    by (rewrite E; now left).
  apply filter_In in Hu. destruct Hu as [Hu Ht]. apply String.eqb_eq in Ht.
  apply in_map_iff in Hu. destruct Hu as (v & Hv & Hin). exists v.
  split; [assumption | congruence].
Qed.

Lemma getValueType_three v :
  In (getValueType validDate v) ["numeric"; "date"; "text"].
Proof.
  unfold getValueType. destruct v as [s| |m]; [|simpl; auto | simpl; auto].
  destruct (_ && _ && _)%bool; [|destruct (_ && _)%bool];
    simpl; auto.
Qed.

(** The type of a column is one of the three types; and a column has a
    [min] and a [max] exactly when it is numeric: a numeric column always
    has a value to take them from. *)
Theorem columnInfo_type (data : list row) (column : string) :
  let info := columnInfo validDate data column in
  In (type info) ["numeric"; "date"; "text"]
  /\ (type info = "numeric" <-> min info <> None)
  /\ (type info = "numeric" <-> max info <> None).
Proof.
  cbv zeta.
  assert (H3 : In (type (columnInfo validDate data column))
                 ["numeric"; "date"; "text"]).
  { cbn [type columnInfo].
    destruct (inferType_cases (columnValues data column) _ eq_refl) as [->|H];
      [simpl; auto|].
    destruct (count_type_pos (inferType validDate (columnValues data column))
                (columnValues data column) ltac:(lia)) as (v & _ & <-).
    apply getValueType_three. }
  split; [exact H3|].
  assert (Hex : inferType validDate (columnValues data column) = "numeric" ->
                nums validDate (columnValues data column) <> []).
  { intros Ht. apply nums_nonempty.
    destruct (inferType_cases (columnValues data column) _ Ht) as [|H];
      [discriminate|].
    apply count_type_pos. lia. }
  unfold columnInfo. cbn [min max type].
  destruct (String.eqb_spec (inferType validDate (columnValues data column))
              "numeric") as [Ht|Ht].
  - specialize (Hex Ht).
    destruct (nums validDate (columnValues data column)) as [|n l];
      [contradiction|].
    cbn [fst snd]. repeat split; auto; discriminate.
  - cbn [fst snd]. repeat split; congruence.
Qed.

(** *** The number of distinct values *)

Lemma non_empty_values_In (data : list row) (column s : string) :
  In s (non_empty_values data column) <->
  s <> "" /\ exists r, In r data /\ obj_get column r = Some s.
Proof.
  unfold non_empty_values. rewrite in_flat_map. split.
  - intros (r & Hr & Hs). destruct (obj_get column r) as [t|] eqn:E;
      [|contradiction].
    destruct (String.eqb_spec t ""); [contradiction|].
    destruct Hs as [<-|[]]. split; [assumption | eauto].
  - intros (Hne & r & Hr & E). exists r. split; [assumption|].
    rewrite E. destruct (String.eqb_spec s ""); [contradiction | now left].
Qed.

Lemma inherited_count_pos (data : list row) (column : string) :
  inherited_count data column <> 0 <->
  is_member column = true
  /\ exists r, In r data /\ obj_get column r = None.
Proof.
  unfold inherited_count, short_rows. destruct (is_member column).
  - split.
    + intros H. split; [reflexivity|].
      destruct (filter (fun r => negb (obj_has column r)) data) as [|r l] eqn:E;
        [contradiction|].
      assert (Hr : In r (filter (fun r => negb (obj_has column r)) data))
        by (rewrite E; now left).
      apply filter_In in Hr. destruct Hr as [Hr Hh].
      apply negb_true_iff, obj_has_false in Hh. eauto.
    + intros (_ & r & Hr & E).
      assert (Hf : In r (filter (fun r => negb (obj_has column r)) data)).
      { apply filter_In. split; [assumption|].
        now apply negb_true_iff, obj_has_false. }
      destruct (filter (fun r => negb (obj_has column r)) data);
        [contradiction | discriminate].
  - split; [congruence | intros [H _]; discriminate].
Qed.

(** The values the profiler collects: the non-empty values of the column,
    and the member of [Object.prototype] when one is read. *)
Lemma columnValues_In (data : list row) (column : string) (v : cell) :
  In v (columnValues data column) <->
  (exists s, v = Str s /\ In s (non_empty_values data column))
  \/ (v = Inherited column /\ inherited_count data column <> 0).
Proof.
  rewrite inherited_count_pos. unfold columnValues, row_get.
  rewrite in_flat_map. split.
  - intros (r & Hr & Hv). destruct (obj_get column r) as [t|] eqn:E.
    + destruct (String.eqb_spec t ""); [contradiction|].
      destruct Hv as [<-|[]]. left. exists t. split; [reflexivity|].
      apply non_empty_values_In. eauto.
    + destruct (is_member column) eqn:Hm; [|contradiction].
      destruct Hv as [<-|[]]. right. eauto.
  - intros [(s & -> & Hs)|(-> & Hm & r & Hr & E)].
    + apply non_empty_values_In in Hs. destruct Hs as (Hne & r & Hr & E).
      exists r. split; [assumption|]. rewrite E.
      destruct (String.eqb_spec s ""); [contradiction | now left].
    + exists r. split; [assumption|]. rewrite E, Hm. now left.
Qed.

Lemma columnValues_rows (data : list row) (column : string) :
  length (columnValues data column) <= length data.
Proof.
  unfold columnValues. induction data as [|r data' IH]; [apply Nat.le_refl|].
  cbn [flat_map]. rewrite length_app. cbn [length].
  destruct (row_get column r) as [s| |m]; [destruct (String.eqb s "")| |];
    cbn [length]; lia.
Qed.

(** [uniqueCount] is the number of distinct non-empty values of the column,
    and one more when a member of [Object.prototype] is read: when the column
    has the name of a member and a row has no cell of it.  It is at most the
    number of rows, and it is 0 exactly when the column has no non-empty
    value and no member is read. *)
Theorem columnInfo_uniqueCount (data : list row) (column : string) :
  let info := columnInfo validDate data column in
  let inherited :=
    if Nat.eqb (inherited_count data column) 0 then 0 else 1 in
  uniqueCount info
  = length (nodup string_dec (non_empty_values data column)) + inherited
  /\ uniqueCount info <= length data
  /\ (uniqueCount info = 0 <->
      non_empty_values data column = [] /\ inherited_count data column = 0).
Proof.
  cbv zeta. cbn [uniqueCount columnInfo].
  set (values := columnValues data column).
  set (strings := nodup string_dec (non_empty_values data column)).
  assert (Hu : NoDup (unique cell_eqb values))
    by apply unique_NoDup, cell_eqb_eq.
  assert (Hin : forall v, In v (unique cell_eqb values) <-> In v values)
    by (intros v; apply unique_In, cell_eqb_eq).
  set (extra := if Nat.eqb (inherited_count data column) 0 then []
                else [Inherited column]).
  assert (Hnd : NoDup (map Str strings ++ extra)).
  { apply NoDup_app.
    - apply Finite.Injective_map_NoDup; [intros a b; congruence|].
      apply NoDup_nodup.
    - subst extra. destruct (Nat.eqb _ 0); repeat constructor. auto.
    - intros v Hv He. apply in_map_iff in Hv. destruct Hv as (s & <- & _).
      subst extra. destruct (Nat.eqb _ 0); [contradiction|].
      destruct He as [He|[]]. discriminate. }
  assert (E : length (unique cell_eqb values)
              = length (map Str strings ++ extra)).
  { apply Permutation_length, NoDup_Permutation; [assumption | assumption|].
    intros v. rewrite Hin. subst values. rewrite columnValues_In, in_app_iff.
    subst strings extra. split.
    - intros [(s & -> & Hs)|(-> & Hc)].
      + left. apply in_map. now apply nodup_In.
      + right. destruct (Nat.eqb_spec (inherited_count data column) 0);
          [contradiction | now left].
    - intros [Hv|Hv].
      + apply in_map_iff in Hv. destruct Hv as (s & <- & Hs).
        left. exists s. split; [reflexivity | now apply nodup_In in Hs].
      + destruct (Nat.eqb_spec (inherited_count data column) 0);
          [contradiction|].
        destruct Hv as [<-|[]]. now right. }
  assert (El : length (map Str strings ++ extra)
               = length strings
                 + (if Nat.eqb (inherited_count data column) 0 then 0 else 1)).
  { rewrite length_app, length_map. subst extra.
    now destruct (Nat.eqb _ 0). }
  split; [now rewrite E, El|]. split.
  - transitivity (length values); [|apply columnValues_rows].
    apply NoDup_incl_length; [assumption|]. intros v. apply Hin.
  - rewrite E, El. subst strings. split.
    + intros H0.
      destruct (Nat.eqb_spec (inherited_count data column) 0); [|lia].
      split; [|assumption].
      destruct (non_empty_values data column) as [|s l] eqn:Es; [reflexivity|].
      assert (Hs : In s (nodup string_dec (s :: l))) by (apply nodup_In; now left).
      destruct (nodup string_dec (s :: l)); [contradiction | simpl in H0; lia].
    + intros [-> ->]. reflexivity.
Qed.

End Column.

(** A column of three numbers, for an engine that takes nothing for a date. *)
Definition readings : list row :=
  [[("a", "3")]; [("a", "1")]; [("a", "2.5")]].

Lemma columnInfo_bounds_witness :
  (1 <=? parseFloat (Str "2.5"))%float = true
  /\ (parseFloat (Str "2.5") <=? 3)%float = true.
Proof.
  apply (columnInfo_bounds (fun _ => false) readings "a" 1%float 3%float
           (Str "2.5")).
  - vm_compute. reflexivity.
  - vm_compute. reflexivity.
  - vm_compute. right. right. left. reflexivity.
  - vm_compute. reflexivity.
Defined.

End ProfilerMore.

(** ** The strategies together *)

Module DispatchFacts.

Import Transformer.

Lemma preparePieData_length (data : list row) (x y transform : string) :
  length (preparePieData data x y transform) <= length data.
Proof.
  rewrite <- (length_map name).
  rewrite (Permutation_length (PieEntries.preparePieData_names data x y transform)).
  unfold obj_keys. rewrite length_map. unfold aggregated.
  pose proof (PieFacts.aggregate_rows_length x y transform data
                {| accumulators := []; polluted := [] |}) as H.
  cbn [accumulators length] in H. lia.
Qed.

Lemma prepareGroupedData_length numberToString (data : list row)
    (x y groupBy transform : string) :
  length (prepareGroupedData numberToString data x y groupBy transform)
  <= length data.
Proof.
  destruct (GroupedFacts.groupedData_keys numberToString data x y groupBy
              transform) as [Hnd Hin].
  unfold prepareGroupedData, obj_values. rewrite length_map.
  rewrite <- (length_map fst), <- (length_map (GroupedFacts.xKey x) data).
  apply NoDup_incl_length; [exact Hnd|]. intros k Hk. now apply Hin.
Qed.

(** [renderChart] prepares nothing for a dataset without rows; for any other
    it prepares pie entries for a pie chart and records otherwise, one for
    each row at most, and one for each row when there is no [groupBy]. *)
Theorem chartData_points numberToString (c : ChartConfig) :
  match chartData numberToString c with
  | None => data c = []
  | Some (PieData l) =>
      chartType c = "pie" /\ data c <> [] /\ length l <= length (data c)
  | Some (SeriesData l) =>
      chartType c <> "pie" /\ data c <> [] /\ length l <= length (data c)
      /\ (groupBy c = None \/ groupBy c = Some "" ->
          length l = length (data c))
  end.
Proof.
  unfold chartData. destruct (data c) as [|r rows] eqn:E; [reflexivity|].
  assert (Hne : r :: rows <> []) by discriminate.
  destruct (String.eqb_spec (chartType c) "pie") as [Hp|Hp].
  - split; [assumption|]. split; [assumption|]. apply preparePieData_length.
  - assert (Hs : length (prepareScatterData (r :: rows) (x c) (y c))
                 = length (r :: rows))
      by (rewrite ScatterFacts.prepareScatterData_map; apply length_map).
    assert (Hq : length (preparePlainData (r :: rows) (y c))
                 = length (r :: rows)) by apply length_map.
    destruct (groupBy c) as [g|].
    + destruct (String.eqb_spec g "") as [->|Hg]; cbn [negb].
      * destruct (String.eqb (chartType c) "scatter");
          repeat split; auto; lia.
      * repeat split; auto; [apply prepareGroupedData_length|].
        intros [H|H]; congruence.
    + destruct (String.eqb (chartType c) "scatter");
        repeat split; auto; lia.
Qed.

End DispatchFacts.

(** ** The series of a chart with groups *)

Module GroupedSeries.

Import Transformer.
Import Series.
Import GroupedFacts.

(** An assignment gives an object the property it names, unless the name is
    [__proto__]. *)
Lemma obj_has_assign {A : Type} k' k (v : A) o :
  obj_has k (obj_assign k' v o)
  = (negb (String.eqb k "__proto__") && String.eqb k' k || obj_has k o)%bool.
Proof.
  destruct (String.eqb_spec k "__proto__") as [->|Hk]; cbn [negb andb orb].
  - apply obj_has_assign_proto.
  - destruct (String.eqb_spec k' k) as [->|Hne]; cbn [orb].
    + rewrite obj_assign_set by assumption.
      now rewrite obj_has_set, String.eqb_refl.
    + now apply obj_has_assign_other.
Qed.

Section Grouped.

Variable numberToString : number -> string.

Variables (data : list row) (x y groupBy : string).

(** The keys of a record are the x column and the keys of the groups, but
    for a group [__proto__]. *)
Definition group_field (k : string) : Prop :=
  In k (group_keys data groupBy) /\ k <> "__proto__".

Definition item_keys (item : record) : Prop :=
  forall k, obj_has k item = true <-> k = x \/ group_field k.

(** While the averages are accumulated a record has counts as well. *)
Definition wide_keys (item : record) : Prop :=
  forall k,
    (k = x \/ group_field k -> obj_has k item = true)
    /\ (obj_has k item = true ->
        k = x \/ group_field k
        \/ exists g, In g (group_keys data groupBy) /\ k = count_key g).

Lemma item_wide_keys item : item_keys item -> wide_keys item.
Proof.
  intros H k. split; intros Hk; apply H in Hk; tauto.
Qed.

Lemma seed_item_has (groups : list cell) xVal k :
  obj_has k (seed_item groups x xVal)
  = (negb (String.eqb k "__proto__")
     && existsb (String.eqb k) (map key_of groups)
     || String.eqb x k)%bool.
Proof.
  unfold seed_item.
  assert (Hb : obj_has k ([(x, cell_value xVal)] : record) = String.eqb x k).
  { unfold obj_has. simpl. now destruct (String.eqb x k). }
  rewrite <- Hb. generalize ([(x, cell_value xVal)] : record).
  induction groups as [|g groups IH]; intros item; simpl.
  - now rewrite andb_false_r.
  - rewrite IH, obj_has_assign, (String.eqb_sym k (key_of g)).
    destruct (negb (String.eqb k "__proto__")), (String.eqb (key_of g) k),
      (existsb (String.eqb k) (map key_of groups)); reflexivity.
Qed.

Lemma seed_item_keys xVal :
  item_keys (seed_item (uniqueGroups data groupBy) x xVal).
Proof.
  intros k. rewrite seed_item_has, orb_true_iff, andb_true_iff, String.eqb_eq.
  rewrite negb_true_iff. unfold group_field.
  fold (group_keys data groupBy). rewrite existsb_exists. split.
  - intros [[Hp (g & Hg & E)]|E]; [right | left; congruence].
    apply String.eqb_eq in E. subst g. split; [assumption|].
    intros ->. discriminate.
  - intros [E|[Hk Hp]]; [right; congruence | left]. split.
    + now destruct (String.eqb_spec k "__proto__").
    + exists k. split; [assumption | apply String.eqb_refl].
Qed.

Lemma accumulate_other_has transform g0 yv item k :
  transform <> "average" ->
  obj_has k (accumulate numberToString transform g0 yv item)
  = (negb (String.eqb k "__proto__") && String.eqb g0 k
     || obj_has k item)%bool.
Proof.
  intros Hne. unfold accumulate.
  destruct (String.eqb_spec transform "sum") as [->|_];
    [now rewrite obj_has_assign|].
  destruct (String.eqb_spec transform "average"); [contradiction|].
  destruct (String.eqb transform "count"); now rewrite obj_has_assign.
Qed.

Lemma accumulate_average_has g0 yv item k :
  obj_has k (accumulate numberToString "average" g0 yv item)
  = (negb (String.eqb k "__proto__")
     && (String.eqb (count_key g0) k || String.eqb g0 k)
     || obj_has k item)%bool.
Proof.
  unfold accumulate. cbn [String.eqb Ascii.eqb Bool.eqb].
  destruct (negb (truthy (field item (count_key g0))));
    cbv zeta; rewrite !obj_has_assign;
    destruct (negb (String.eqb k "__proto__")),
      (String.eqb (count_key g0) k), (String.eqb g0 k); reflexivity.
Qed.

Lemma accumulate_item_keys transform xk item r :
  transform <> "average" -> In r data -> item_keys item ->
  item_keys (accumulate_item numberToString x y groupBy transform xk item r).
Proof.
  intros Hne Hr H. unfold accumulate_item.
  destruct (String.eqb (xKey x r) xk); [|assumption].
  intros k. rewrite accumulate_other_has by assumption.
  rewrite orb_true_iff, andb_true_iff, negb_true_iff, String.eqb_eq.
  rewrite (H k). split; [|tauto].
  intros [[Hp <-]|Hk]; [right | assumption].
  split; [now apply groupKey_In|]. intros E. rewrite E in Hp. discriminate.
Qed.

Lemma accumulate_item_wide xk item r :
  In r data -> wide_keys item ->
  wide_keys (accumulate_item numberToString x y groupBy "average" xk item r).
Proof.
  intros Hr H. unfold accumulate_item.
  destruct (String.eqb (xKey x r) xk); [|assumption].
  pose proof (groupKey_In data groupBy r Hr) as Hg.
  intros k. rewrite accumulate_average_has. destruct (H k) as [H1 H2]. split.
  - intros Hk. rewrite (H1 Hk). apply orb_true_r.
  - intros Hk. apply orb_true_iff in Hk. destruct Hk as [Hk|Hk]; [|auto].
    apply andb_prop in Hk. destruct Hk as [Hp Hk].
    apply negb_true_iff in Hp.
    apply orb_true_iff in Hk. destruct Hk as [Hk|Hk];
      apply String.eqb_eq in Hk.
    + right. right. eauto.
    + subst k. right. left. split; [assumption|].
      intros E. rewrite E in Hp. discriminate.
Qed.

Lemma accumulate_rows_item_keys transform xk rows : forall item,
  transform <> "average" -> incl rows data -> item_keys item ->
  item_keys
    (fold_left (accumulate_item numberToString x y groupBy transform xk)
       rows item).
Proof.
  induction rows as [|r rows IH]; intros item Hne Hincl H; simpl; [assumption|].
  apply IH; [assumption | intros a Ha; apply Hincl; now right |].
  apply accumulate_item_keys; [assumption | apply Hincl; now left | assumption].
Qed.

Lemma accumulate_rows_wide xk rows : forall item,
  incl rows data -> wide_keys item ->
  wide_keys
    (fold_left (accumulate_item numberToString x y groupBy "average" xk)
       rows item).
Proof.
  induction rows as [|r rows IH]; intros item Hincl H; simpl; [assumption|].
  apply IH; [intros a Ha; apply Hincl; now right|].
  apply accumulate_item_wide; [apply Hincl; now left | assumption].
Qed.

Lemma average_group_has item g k :
  obj_has k (average_group item g)
  = (negb (String.eqb (count_key (key_of g)) k)
     && (negb (String.eqb k "__proto__") && String.eqb (key_of g) k
         || obj_has k item))%bool.
Proof.
  unfold obj_has at 1. rewrite average_group_get.
  destruct (String.eqb (count_key (key_of g)) k); [reflexivity|].
  cbn [negb andb]. fold (obj_has k (obj_assign (key_of g)
                                      (averaged item (key_of g)) item)).
  apply obj_has_assign.
Qed.

Lemma average_item_has_other (groups : list cell) k :
  (forall g, In g groups -> count_key (key_of g) <> k) ->
  forall item,
    obj_has k (average_item groups item)
    = (negb (String.eqb k "__proto__")
       && existsb (String.eqb k) (map key_of groups)
       || obj_has k item)%bool.
Proof.
  unfold average_item.
  induction groups as [|g groups IH]; intros Hne item; simpl.
  - now rewrite andb_false_r.
  - rewrite IH by (intros; apply Hne; now right).
    rewrite average_group_has, (String.eqb_sym k (key_of g)).
    destruct (String.eqb_spec (count_key (key_of g)) k) as [E|_].
    + exfalso. apply (Hne g); [now left | assumption].
    + cbn [negb andb].
      destruct (negb (String.eqb k "__proto__")), (String.eqb (key_of g) k),
        (existsb (String.eqb k) (map key_of groups)); reflexivity.
Qed.

Lemma average_item_keys item :
  clean_keys data x groupBy = true -> wide_keys item ->
  item_keys (average_item (uniqueGroups data groupBy) item).
Proof.
  intros Hclean H k.
  assert (Hin : forall k', existsb (String.eqb k')
                             (map key_of (uniqueGroups data groupBy)) = true
                           <-> In k' (group_keys data groupBy)).
  { intros k'. unfold group_keys. rewrite existsb_exists. split.
    - intros (g & Hg & E). apply String.eqb_eq in E. now subst.
    - intros Hk. exists k'. split; [assumption | apply String.eqb_refl]. }
  destruct (in_dec string_dec k
              (map count_key (group_keys data groupBy))) as [Hc|Hc].
  - apply in_map_iff in Hc. destruct Hc as (g & <- & Hg).
    rewrite (average_item_no_count data x groupBy _ item g Hclean)
      by (try apply incl_refl; exact Hg).
    split; [discriminate|].
    intros [E|[Hk _]]; exfalso.
    + now apply (proj2 (clean_keys_count data x groupBy g g Hclean Hg Hg)).
    + now apply (proj1 (clean_keys_count data x groupBy g (count_key g) Hclean
                          Hg Hk)).
  - rewrite average_item_has_other.
    + rewrite orb_true_iff, andb_true_iff, negb_true_iff, Hin.
      destruct (H k) as [H1 H2]. unfold group_field in *. split.
      * intros [[Hp Hk]|Hk].
        -- right. split; [assumption|]. intros E. rewrite E in Hp. discriminate.
        -- destruct (H2 Hk) as [E|[Hg|(g & Hg & E)]]; auto.
           exfalso. apply Hc. subst. now apply in_map.
      * intros Hk. right. now apply H1.
    + intros g Hg E. apply Hc. subst. apply in_map.
      unfold group_keys. now apply in_map.
Qed.

Lemma grouped_item_keys transform item :
  (transform = "average" -> clean_keys data x groupBy = true) ->
  In item (prepareGroupedData numberToString data x y groupBy transform) ->
  item_keys item.
Proof.
  intros Hclean Hitem.
  destruct (groupedData_keys numberToString data x y groupBy transform)
    as [Hnd Hin].
  unfold prepareGroupedData, obj_values in Hitem.
  apply in_map_iff in Hitem. destruct Hitem as ([xk item'] & E & Hkv).
  simpl in E. subst item'.
  assert (Hk : In xk (obj_keys (groupedData numberToString data x y groupBy
                                  transform)))
    by (unfold obj_keys; now apply (in_map fst) in Hkv).
  apply Hin in Hk. destruct Hk as [Hk Hp].
  assert (Hxk : In xk (x_keys data x)).
  { apply in_map_iff in Hk. destruct Hk as (r & <- & Hr). now apply xKey_In. }
  apply (In_obj_get _ _ _ Hnd) in Hkv.
  destruct (string_dec transform "average") as [->|Hne].
  - destruct (groupedData_average_get numberToString data x y groupBy xk Hxk Hp)
      as (xVal & _ & _ & Hget).
    rewrite Hget in Hkv. injection Hkv as <-.
    apply average_item_keys; [now apply Hclean|].
    apply accumulate_rows_wide; [apply incl_refl|].
    apply item_wide_keys, seed_item_keys.
  - destruct (groupedData_other_get numberToString data x y groupBy transform
                xk Hne Hxk Hp) as (xVal & _ & _ & Hget).
    rewrite Hget in Hkv. injection Hkv as <-.
    apply accumulate_rows_item_keys;
      [assumption | apply incl_refl | apply seed_item_keys].
Qed.

(** Every record of a chart with groups has the x column and one property
    for each group, but for a group [__proto__], and no other property; so
    when there is a record the chart draws one series for each such group,
    but for a group named as the x column.  For [average] this holds when the
    keys are clean. *)
Theorem grouped_series (transform : string) :
  (transform = "average" -> clean_keys data x groupBy = true) ->
  (forall item k,
     In item (prepareGroupedData numberToString data x y groupBy transform) ->
     (obj_has k item = true <->
      k = x \/ (In k (group_keys data groupBy) /\ k <> "__proto__")))
  /\ (prepareGroupedData numberToString data x y groupBy transform <> [] ->
      forall k,
        In k (seriesKeys
                (prepareGroupedData numberToString data x y groupBy transform)
                x)
        <-> In k (group_keys data groupBy) /\ k <> "__proto__" /\ k <> x).
Proof.
  intros Hclean. split.
  - intros item k Hitem. now apply (grouped_item_keys transform item Hclean).
  - intros Hne k. unfold seriesKeys.
    destruct (prepareGroupedData numberToString data x y groupBy transform)
      as [|item rest] eqn:E; [congruence|].
    assert (Hk : item_keys item).
    { apply (grouped_item_keys transform item Hclean). rewrite E. now left. }
    cbn [hd]. rewrite filter_In, <- obj_has_keys, (Hk k), negb_true_iff.
    unfold group_field.
    destruct (String.eqb_spec k x) as [->|Hx]; split.
    + intros [_ H]. discriminate.
    + intros (_ & _ & H). congruence.
    + intros [[H|H] _]; [congruence | tauto].
    + intros (H1 & H2 & _). auto.
Qed.

End Grouped.

Lemma grouped_series_witness :
  In "east"
    (seriesKeys (prepareGroupedData no_string sales "month" "sales" "region" "sum")
       "month")
  <-> In "east" (group_keys sales "region")
      /\ "east" <> "__proto__" /\ "east" <> "month".
Proof.
  apply (grouped_series no_string sales "month" "sales" "region" "sum");
    discriminate.
Defined.

End GroupedSeries.

(** ** The request *)

Module PayloadFacts.

Section Table.

Context {C V : Type}.
Variables (key : C -> string) (val : C -> V).

(** A table filled by [acc[key(col)] = val(col)] for one column after the
    other holds for a key that is not [__proto__] the value of the columns of
    this key, when they agree on it. *)
Lemma table_get (cols : list C) k v : forall acc : object V,
  k <> "__proto__" ->
  (forall c, In c cols -> key c = k -> val c = v) ->
  obj_get k
    (fold_left (fun acc col => obj_assign (key col) (val col) acc) cols acc)
  = if existsb (fun c => String.eqb (key c) k) cols then Some v
    else obj_get k acc.
Proof.
  induction cols as [|c cols IH]; intros acc Hk H; simpl; [reflexivity|].
  rewrite IH
    by first [assumption | intros; apply H; [now right | assumption]].
  destruct (String.eqb_spec (key c) k) as [E|Hne]; cbn [orb].
  - rewrite obj_assign_set by congruence.
    rewrite obj_get_set, E, String.eqb_refl.
    rewrite (H c (or_introl eq_refl) E).
    now destruct (existsb (fun c => String.eqb (key c) k) cols).
  - now rewrite obj_get_assign_other.
Qed.

(** It holds nothing for the key [__proto__]. *)
Lemma table_no_proto (cols : list C) : forall acc : object V,
  obj_has "__proto__" acc = false ->
  obj_get "__proto__"
    (fold_left (fun acc col => obj_assign (key col) (val col) acc) cols acc)
  = None.
Proof.
  induction cols as [|c cols IH]; intros acc H; simpl.
  - now apply obj_has_false.
  - apply IH. now rewrite obj_has_assign_proto.
Qed.

End Table.

Section Request.

Variable validDate : string -> bool.



End Request.


End PayloadFacts.

(** ** The data context of the prompt *)

Module DataContextFacts.

Import DataContext.

Lemma cell_eq_dec (a b : cell) : {a = b} + {a <> b}.
Proof. decide equality; apply string_dec. Defined.

Lemma set_add_hd (seen : list cell) (c : cell) :
  seen <> [] -> hd_error (set_add cell_eqb seen c) = hd_error seen.
Proof.
  intros H. unfold set_add. destruct (existsb (cell_eqb c) seen); [reflexivity|].
  destruct seen; [contradiction | reflexivity].
Qed.

Lemma unique_from_hd (l : list cell) : forall seen,
  seen <> [] -> hd_error (fold_left (set_add cell_eqb) l seen) = hd_error seen.
Proof.
  induction l as [|c l IH]; intros seen H; simpl; [reflexivity|].
  rewrite IH; [now apply set_add_hd|].
  unfold set_add. destruct (existsb (cell_eqb c) seen); [assumption|].
  destruct seen; discriminate.
Qed.

(** The first element of [[...new Set(l)]] is the first of [l]. *)
Lemma unique_hd (l : list cell) : hd_error (unique cell_eqb l) = hd_error l.
Proof.
  destruct l as [|c l]; [reflexivity|]. unfold unique. cbn [fold_left].
  rewrite unique_from_hd; [reflexivity | discriminate].
Qed.

Lemma firstn_hd {A : Type} (n : nat) (l : list A) :
  hd_error (firstn (S n) l) = hd_error l.
Proof. now destruct l. Qed.

Lemma uniqueValues_get (columns : list string) (data : list row) col :
  col <> "__proto__" ->
  obj_get col (uniqueValues columns data)
  = if existsb (fun c => String.eqb c col) columns
    then Some (firstn 10 (unique cell_eqb (map (row_get col) data)))
    else None.
Proof.
  intros Hp. unfold uniqueValues.
  apply (PayloadFacts.table_get (fun c : string => c)
           (fun c => firstn 10 (unique cell_eqb (map (row_get c) data)))
           columns col); [assumption|].
  now intros c _ ->.
Qed.

(** [uniqueValues] holds for each column of the request but [__proto__] at
    most 10 cells of the column, no cell twice, the cell of the first row
    first; they are all the cells of the column when it has at most 10
    distinct cells.  It holds nothing for [__proto__] or any other key. *)
Theorem uniqueValues_column (columns : list string) (data : list row)
    (col : string) :
  (In col columns -> col <> "__proto__" ->
   exists values,
     obj_get col (uniqueValues columns data) = Some values
     /\ NoDup values
     /\ length values <= 10
     /\ (forall v, In v values -> exists r, In r data /\ row_get col r = v)
     /\ hd_error values = option_map (row_get col) (hd_error data)
     /\ (length (nodup cell_eq_dec (map (row_get col) data)) <= 10 ->
         forall r, In r data -> In (row_get col r) values))
  /\ (~ In col columns \/ col = "__proto__" ->
      obj_get col (uniqueValues columns data) = None).
Proof.
  destruct (string_dec col "__proto__") as [->|Hp].
  { split; [congruence|]. intros _. unfold uniqueValues.
    now apply (PayloadFacts.table_no_proto (fun c : string => c)). }
  rewrite uniqueValues_get by assumption.
  assert (Hex : existsb (fun c => String.eqb c col) columns = true
                <-> In col columns).
  { rewrite existsb_exists. split.
    - intros (c & Hc & E). apply String.eqb_eq in E. now subst.
    - intros H. exists col. split; [assumption | apply String.eqb_refl]. }
  split.
  - intros Hin _. apply Hex in Hin. rewrite Hin.
    set (cells := map (row_get col) data).
    assert (Hnd : NoDup (unique cell_eqb cells))
      by apply unique_NoDup, cell_eqb_eq.
    assert (Hu : forall v, In v (unique cell_eqb cells) <-> In v cells)
      by (intros v; apply unique_In, cell_eqb_eq).
    eexists. split; [reflexivity|]. split.
    { rewrite <- (firstn_skipn 10 (unique cell_eqb cells)) in Hnd.
      now apply NoDup_app_remove_r in Hnd. }
    split; [apply firstn_le_length|]. split.
    { intros v Hv.
      assert (Hv' : In v (unique cell_eqb cells)).
      { rewrite <- (firstn_skipn 10 (unique cell_eqb cells)).
        apply in_or_app. now left. }
      clear Hv. rename Hv' into Hv. apply Hu in Hv.
      apply in_map_iff in Hv. destruct Hv as (r & <- & Hr). eauto. }
    split.
    { rewrite firstn_hd, unique_hd. subst cells. now destruct data. }
    intros Hlen r Hr.
    assert (E : length (unique cell_eqb cells)
                = length (nodup cell_eq_dec cells)).
    { apply Permutation_length, NoDup_Permutation;
        [assumption | apply NoDup_nodup|].
      intros v. rewrite nodup_In. apply Hu. }
    rewrite firstn_all2 by lia. apply Hu. now apply in_map.
  - intros [Hn|Hn]; [|contradiction].
    destruct (existsb _ columns) eqn:E; [|reflexivity].
    exfalso. now apply Hn, Hex.
Qed.

End DataContextFacts.

(** ** What the validator returns *)

Module ValidatorMore.

Import Validator.
Import ValidatorFacts.

Lemma check_required_object fields chartConfig :
  fields <> [] -> check_required fields chartConfig = None ->
  exists props, chartConfig = JObj props.
Proof.
  destruct fields as [|f fields]; [congruence|]. intros _. simpl.
  destruct chartConfig; simpl; try discriminate; eauto.
Qed.

(** A specification the validator accepts is an object with the four
    required fields; the response has its [chartType], [x], [y] and
    [summary] as they are, a [chartType] that is one of the five chart
    types, an [x] and a [y] that are columns of the dataset, and the rows of
    the request as they are.  Nothing is asked of [summary] but to be
    there. *)
Theorem validate_accepts (columns : list string) (rows : list row)
    (chartConfig : json) (spec : ChartSpec) :
  validate columns rows chartConfig = inr spec ->
  (exists props, chartConfig = JObj props)
  /\ Forall (fun f => present f chartConfig) requiredFields
  /\ chartType spec = prop "chartType" chartConfig
  /\ x spec = prop "x" chartConfig
  /\ y spec = prop "y" chartConfig
  /\ summary spec = prop "summary" chartConfig
  /\ (exists s, summary spec = Some s)
  /\ one_of validChartTypes (chartType spec)
  /\ one_of columns (x spec)
  /\ one_of columns (y spec)
  /\ data spec = rows.
Proof.
  unfold validate.
  destruct (check_required requiredFields chartConfig) eqn:Ereq; [discriminate|].
  destruct (includes validChartTypes (prop "chartType" chartConfig)) eqn:Et;
    [|discriminate].
  destruct (includes columns (prop "x" chartConfig)) eqn:Ex; [|discriminate].
  destruct (includes columns (prop "y" chartConfig)) eqn:Ey; [|discriminate].
  cbn [negb orb]. intros [= <-]. cbn [chartType x y summary data].
  pose proof (proj1 (check_required_None _ _) Ereq) as Hall.
  destruct (check_required_object requiredFields chartConfig
              ltac:(discriminate) Ereq) as [props ->].
  split; [eauto|]. split; [exact Hall|].
  repeat (split; [reflexivity|]).
  split.
  { rewrite Forall_forall in Hall.
    specialize (Hall "summary" ltac:(simpl; tauto)).
    unfold present, js_in in Hall. injection Hall as Hall.
    apply obj_has_true in Hall. exact Hall. }
  repeat split; try reflexivity; now apply includes_one_of.
Qed.

Lemma validate_accepts_witness :
  exists spec,
    validate ["month"; "sales"; "region"] GroupedFacts.sales sample_config
    = inr spec
    /\ one_of ["month"; "sales"; "region"] (x spec)
    /\ data spec = GroupedFacts.sales.
Proof.
  eexists. split; [reflexivity|].
  destruct (validate_accepts ["month"; "sales"; "region"] GroupedFacts.sales
              sample_config _ eq_refl)
    as (_ & _ & _ & _ & _ & _ & _ & _ & Hx & _ & Hd).
  split; [exact Hx | exact Hd].
Defined.

End ValidatorMore.
